(** * news_pipe: feed ingestion and de-duplication engine

    A shallow embedding of [news_pipe.py] and the verification of its
    specification.  Python values are modelled as follows:

    - a [str] is the list of its Unicode code points ([list N]);
    - [bytes] is a list of octets ([list N], each below 256);
    - the [state] dictionary is a record holding a finite map from feed
      URLs to lists of identifiers;
    - effects (the webhook, the feed parser, the clock, the console and
      the state file) are threaded through an explicit machine state that
      carries the dictionary, the trace of events and the file;
    - a raised exception is a result of its own, and the mutations made
      before it are kept. *)

From Stdlib Require Import NArith String Ascii QArith_base.
From stdpp Require Import base list gmap sorting.

Local Open Scope N_scope.

(** ** Python strings *)

(** A Python [str]: the sequence of its code points. *)
Abbreviation str := (list N).

(** The [str] of an ASCII literal. *)
Definition py (s : string) : list N :=
  map N_of_ascii (list_ascii_of_string s).

(** [str.isspace] on one character: the code points CPython treats as
    whitespace. *)
Definition isspace (c : N) : bool :=
  ((9 <=? c) && (c <=? 13)) || ((28 <=? c) && (c <=? 32))
  || (c =? 133) || (c =? 160) || (c =? 5760)
  || ((8192 <=? c) && (c <=? 8202))
  || (c =? 8232) || (c =? 8233) || (c =? 8239) || (c =? 8287) || (c =? 12288).

Fixpoint lstrip (s : list N) : list N :=
  match s with
  | c :: s' => if isspace c then lstrip s' else s
  | [] => []
  end.

Definition rstrip (s : list N) : list N := rev (lstrip (rev s)).

(** [s.strip()] *)
Definition strip (s : list N) : list N := rstrip (lstrip s).

(** Truthiness of a [str]: the empty string is falsy. *)
Definition truthy (s : list N) : bool :=
  match s with [] => false | _ => true end.

Fixpoint startswith (p s : list N) : bool :=
  match p, s with
  | [], _ => true
  | a :: p', b :: s' => (a =? b) && startswith p' s'
  | _ :: _, [] => false
  end.

(** [k in t] on strings: substring test. *)
Fixpoint contains (k t : list N) : bool :=
  startswith k t ||
  match t with
  | [] => false
  | _ :: t' => contains k t'
  end.

(** [s.encode("utf-8", errors="ignore")]: surrogate code points cannot be
    encoded and are dropped. *)
Definition utf8_char (c : N) : list N :=
  if c <? 128 then [c]
  else if c <? 2048 then [192 + c / 64; 128 + c mod 64]
  else if (55296 <=? c) && (c <=? 57343) then []
  else if c <? 65536 then
    [224 + c / 4096; 128 + (c / 64) mod 64; 128 + c mod 64]
  else
    [240 + c / 262144; 128 + (c / 4096) mod 64;
     128 + (c / 64) mod 64; 128 + c mod 64].

Definition encode_utf8 (s : list N) : list N := flat_map utf8_char s.

(** ** hashlib.sha1

    The standard library's SHA-1 (FIPS 180-4) on 32-bit words held in [N],
    the wrap-around written out. *)
Module SHA1.

Definition w32 : N := 4294967296.

Definition add32 (a b : N) : N := (a + b) mod w32.

Definition rotl32 (n x : N) : N :=
  (N.lor (N.shiftl x n) (N.shiftr x (32 - n))) mod w32.

Definition not32 (x : N) : N := N.lxor (x mod w32) 4294967295.

(** Message padding: a one bit, zeros, and the bit length on 64 bits. *)
Definition be_bytes (k : nat) (x : N) : list N :=
  map (fun i => (N.shiftr x (8 * N.of_nat i)) mod 256) (rev (seq 0 k)).

Definition pad (msg : list N) : list N :=
  let len := N.of_nat (length msg) in
  let zeros := N.to_nat ((119 - len mod 64) mod 64) in
  msg ++ [128] ++ replicate zeros 0 ++ be_bytes 8 (8 * len).

Fixpoint blocks (fuel : nat) (l : list N) : list (list N) :=
  match fuel, l with
  | S f, _ :: _ => take 64 l :: blocks f (drop 64 l)
  | _, _ => []
  end.

Fixpoint words (fuel : nat) (l : list N) : list N :=
  match fuel, l with
  | S f, a :: b :: c :: d :: l' =>
      (((a * 256 + b) * 256 + c) * 256 + d) :: words f l'
  | _, _ => []
  end.

(** The message schedule.  [win] holds the last sixteen words, newest
    first; the result lists the remaining words in order. *)
Fixpoint schedule (n : nat) (win : list N) : list N :=
  match n with
  | O => []
  | S n' =>
      let x := N.lxor (N.lxor (nth 2 win 0) (nth 7 win 0))
                      (N.lxor (nth 13 win 0) (nth 15 win 0)) in
      let w := rotl32 1 x in
      w :: schedule n' (w :: take 15 win)
  end.

Definition expand (block : list N) : list N :=
  let w16 := words 16 block in
  w16 ++ schedule 64 (rev w16).

Definition f (t : nat) (b c d : N) : N :=
  if (t <? 20)%nat then N.lor (N.land b c) (N.land (not32 b) d)
  else if (t <? 40)%nat then N.lxor (N.lxor b c) d
  else if (t <? 60)%nat then
    N.lor (N.lor (N.land b c) (N.land b d)) (N.land c d)
  else N.lxor (N.lxor b c) d.

Definition K (t : nat) : N :=
  if (t <? 20)%nat then 1518500249
  else if (t <? 40)%nat then 1859775393
  else if (t <? 60)%nat then 2400959708
  else 3395469782.

Record regs := Regs { ra : N; rb : N; rc : N; rd : N; re : N }.

Definition round (t : nat) (w : N) (r : regs) : regs :=
  let tmp := add32 (add32 (add32 (add32 (rotl32 5 (ra r))
                                        (f t (rb r) (rc r) (rd r)))
                                 (re r)) (K t)) w in
  Regs tmp (ra r) (rotl32 30 (rb r)) (rc r) (rd r).

Fixpoint rounds (t : nat) (ws : list N) (r : regs) : regs :=
  match ws with
  | [] => r
  | w :: ws' => rounds (S t) ws' (round t w r)
  end.

Definition compress (h : regs) (block : list N) : regs :=
  let r := rounds 0 (expand block) h in
  Regs (add32 (ra h) (ra r)) (add32 (rb h) (rb r)) (add32 (rc h) (rc r))
       (add32 (rd h) (rd r)) (add32 (re h) (re r)).

Definition init : regs :=
  Regs 1732584193 4023233417 2562383102 271733878 3285377520.

Definition digest (msg : list N) : regs :=
  let p := pad msg in
  fold_left compress (blocks (length p) p) init.

(** One lower-case hexadecimal digit. *)
Definition hexdigit (n : N) : N :=
  if n <? 10 then 48 + n else 87 + n.

Definition hex8 (w : N) : list N :=
  map (fun i => hexdigit ((N.shiftr w (4 * N.of_nat i)) mod 16))
      (rev (seq 0 8)).

(** [hashlib.sha1(data).hexdigest()] *)
Definition hexdigest (msg : list N) : list N :=
  let r := digest msg in
  hex8 (ra r) ++ hex8 (rb r) ++ hex8 (rc r) ++ hex8 (rd r) ++ hex8 (re r).

End SHA1.

(** ** Entries and their identifiers *)

(** A feed entry as [feedparser] hands it over: every field may be
    missing. *)
Record Entry := mkEntry {
  entry_id : option str;
  entry_link : option str;
  entry_title : option str;
  entry_published : option str;
  entry_updated : option str
}.

(** ["k" in entry and entry.k] *)
Definition present (o : option str) : bool :=
  match o with
  | Some s => truthy s
  | None => false
  end.

(** [entry.get("k") or ""] and [entry.get("k", "")] *)
Definition or_empty (o : option str) : str := default [] o.

Definition uid_for (entry : Entry) : str :=
  let base :=
    if present (entry_id entry) then or_empty (entry_id entry)
    else if present (entry_link entry) then or_empty (entry_link entry)
    else or_empty (entry_title entry) ++ or_empty (entry_published entry)
         ++ or_empty (entry_updated entry) in
  SHA1.hexdigest (encode_utf8 base).

(** The basis string as the specification words it: the first of id and
    link that is present and non-empty, else title, published and updated
    joined, each read as the empty string when missing. *)
Definition spec_basis (entry : Entry) : str :=
  match entry_id entry with
  | Some (c :: i) => c :: i
  | _ =>
      match entry_link entry with
      | Some (c :: l) => c :: l
      | _ =>
          default [] (entry_title entry) ++ default [] (entry_published entry)
          ++ default [] (entry_updated entry)
      end
  end.

Definition is_lower_hex (c : N) : bool :=
  ((48 <=? c) && (c <=? 57)) || ((97 <=? c) && (c <=? 102)).

(** ** The seen list of one feed *)

(** Lines 81 to 84: append, then keep the last 500. *)
Definition seen_append (seen : list str) (uid : str) : list str :=
  let seen' := seen ++ [uid] in
  if (500 <? length seen')%nat then drop (length seen' - 500) seen' else seen'.

(** Lines 77 to 85 on the seen list alone: an identifier already there is
    skipped, another one is recorded. *)
Definition record (seen : list str) (uid : str) : list str :=
  if bool_decide (uid ∈ seen) then seen else seen_append seen uid.

(** ** The state dictionary and its JSON form *)

Record State := mkState { seen : gmap str (list str) }.

Definition seen_of (url : str) (st : State) : list str :=
  default [] (seen st !! url).

Definition set_seen (url : str) (l : list str) (st : State) : State :=
  mkState (<[url := l]> (seen st)).

(** [state["seen"].setdefault(url, [])] *)
Definition setdefault (url : str) (st : State) : State :=
  match seen st !! url with
  | Some _ => st
  | None => set_seen url [] st
  end.

Module Json.

Definition hex4 (n : N) : str :=
  map (fun i => SHA1.hexdigit ((N.shiftr n (4 * N.of_nat i)) mod 16))
      (rev (seq 0 4)).

(** One character of [py_encode_basestring_ascii]. *)
Definition escape_char (c : N) : str :=
  if c =? 34 then [92; 34]
  else if c =? 92 then [92; 92]
  else if c =? 8 then [92; 98]
  else if c =? 12 then [92; 102]
  else if c =? 10 then [92; 110]
  else if c =? 13 then [92; 114]
  else if c =? 9 then [92; 116]
  else if (32 <=? c) && (c <=? 126) then [c]
  else if c <? 65536 then [92; 117] ++ hex4 c
  else
    let n := c - 65536 in
    [92; 117] ++ hex4 (N.lor 55296 ((N.shiftr n 10) mod 1024))
    ++ [92; 117] ++ hex4 (N.lor 56320 (n mod 1024)).

Definition encode_str (s : str) : str :=
  [34] ++ flat_map escape_char s ++ [34].

Definition newline_indent (level : nat) : str :=
  10 :: replicate (2 * level) 32.

(** The chunks [_iterencode_list] yields for a list of strings. *)
Definition iterencode_list (lst : list str) (level : nat) : list str :=
  match lst with
  | [] => [py "[]"]
  | v :: vs =>
      (py "[" ++ newline_indent (S level) ++ encode_str v)
      :: map (fun x => py "," ++ newline_indent (S level) ++ encode_str x) vs
      ++ [newline_indent level; py "]"]
  end.

Fixpoint dict_items {V} (enc : V -> nat -> list str)
    (items : list (str * V)) (level : nat) (first : bool) : list str :=
  match items with
  | [] => []
  | (k, v) :: rest =>
      (if first then [] else [py "," ++ newline_indent level])
      ++ [encode_str k; py ": "] ++ enc v level
      ++ dict_items enc rest level false
  end.

(** The chunks [_iterencode_dict] yields, [items] being the dictionary's
    items in the order they are written. *)
Definition iterencode_dict {V} (enc : V -> nat -> list str)
    (items : list (str * V)) (level : nat) : list str :=
  match items with
  | [] => [py "{}"]
  | _ =>
      [py "{"; newline_indent (S level)]
      ++ dict_items enc items (S level) true
      ++ [newline_indent level; py "}"]
  end.

(** Python's order on [str]: lexicographic on code points. *)
Fixpoint str_leb (a b : str) : bool :=
  match a, b with
  | [], _ => true
  | _ :: _, [] => false
  | x :: a', y :: b' => (x <? y) || ((x =? y) && str_leb a' b')
  end.

Definition key_le {V} (p q : str * V) : Prop := str_leb p.1 q.1.

#[global] Instance key_le_dec {V} (p q : str * V) : Decision (key_le p q).
Proof. unfold key_le. apply _. Defined.

(** [sorted(dct.items())] *)
Definition sorted_items {V} (m : gmap str V) : list (str * V) :=
  merge_sort key_le (map_to_list m).

(** The chunks of [json.dump(state, f, indent=2, sort_keys=True)]. *)
Definition chunks (st : State) : list str :=
  iterencode_dict
    (fun (m : gmap str (list str)) level =>
       iterencode_dict iterencode_list (sorted_items m) level)
    [(py "seen", seen st)] 0.

Definition dumps (st : State) : str := concat (chunks st).

(** *** The document as the specification pictures it

    The text of a document that lists the feeds [items] in the order
    given: an object with the single key ["seen"], under it one key per
    feed with the list of its identifiers, two spaces of indentation per
    level. *)
Definition list_text (level : nat) (l : list str) : str :=
  match l with
  | [] => py "[]"
  | v :: vs =>
      py "[" ++ newline_indent (S level) ++ encode_str v
      ++ flat_map (fun x => py "," ++ newline_indent (S level)
                            ++ encode_str x) vs
      ++ newline_indent level ++ py "]"
  end.

Definition feed_text (item : str * list str) : str :=
  encode_str item.1 ++ py ": " ++ list_text 2 item.2.

Definition feeds_text (items : list (str * list str)) : str :=
  match items with
  | [] => py "{}"
  | item :: rest =>
      py "{" ++ newline_indent 2 ++ feed_text item
      ++ flat_map (fun x => py "," ++ newline_indent 2 ++ feed_text x) rest
      ++ newline_indent 1 ++ py "}"
  end.

Definition document (items : list (str * list str)) : str :=
  py "{" ++ newline_indent 1 ++ encode_str (py "seen") ++ py ": "
  ++ feeds_text items ++ newline_indent 0 ++ py "}".

End Json.

(** ** Effects *)

Inductive Exn := AssertionError | JSONDecodeError | RequestException.

Inductive LogLine :=
| LogWarn (name url : str)
| LogError (name : str) (e : Exn)
| LogDone (totals : nat).

(** What the program does to the world, in the order it does it. *)
Inductive Event :=
| EvParse (url : str)
| EvPost (content : str) (ok : bool)
| EvSleep (seconds : Q)
| EvPrint (line : LogLine)
| EvSave (text : str).

(** Truthiness of a list. *)
Definition nonempty {A} (l : list A) : bool :=
  match l with [] => false | _ => true end.

(** The result of [feedparser.parse]. *)
Record Parsed := mkParsed { bozo : bool; entries : list Entry }.

(** The [state] dictionary of the running process, what has happened so
    far, and the contents of [state.json] ([None]: no such file). *)
Record Machine := mkMachine {
  m_state : State;
  m_trace : list Event;
  m_file : option str
}.

Inductive Result (A : Type) :=
| Ok (a : A)
| Raise (e : Exn).
Arguments Ok {A} a.
Arguments Raise {A} e.

Definition M (A : Type) : Type := Machine -> Result A * Machine.

#[global] Instance M_ret : MRet M := fun A a m => (Ok a, m).

#[global] Instance M_bind : MBind M := fun A B k c m =>
  match c m with
  | (Ok a, m1) => k a m1
  | (Raise e, m1) => (Raise e, m1)
  end.

Definition raise {A} (e : Exn) : M A := fun m => (Raise e, m).

Definition emit (ev : Event) : M unit := fun m =>
  (Ok tt, mkMachine (m_state m) (m_trace m ++ [ev]) (m_file m)).

Definition get_state : M State := fun m => (Ok (m_state m), m).

Definition put_state (st : State) : M unit := fun m =>
  (Ok tt, mkMachine st (m_trace m) (m_file m)).

(** Configuration and collaborators.  The repository ships
    [KEYWORDS = []] and ten [FEEDS]; the webhook comes from the process
    environment.  [str_lower] is [str.lower]; the feed parser and the
    webhook answer as a function of what has happened so far
    ([requests_post] is [true] when the call returns a success status, so
    that [raise_for_status] passes); [json_load] reads a state document and
    is [None] when [json.load] raises. *)
Class Env := {
  KEYWORDS : list str;
  FEEDS : list (str * str);
  DISCORD_WEBHOOK : option str;
  str_lower : str -> str;
  feedparser_parse : list Event -> str -> Parsed;
  requests_post : list Event -> str -> bool;
  json_load : str -> option State
}.

Definition POST_DELAY_SECONDS : Q := Qmake 6 10.

(** Writing the state file: emptying it, and appending to it. *)
Inductive FsOp :=
| FsTruncate
| FsWrite (chunk : str).

Definition fs_step (file : option str) (op : FsOp) : option str :=
  match op with
  | FsTruncate => Some []
  | FsWrite chunk => Some (default [] file ++ chunk)
  end.

(** [open(STATE_FILE, "w")] empties the file; [json.dump] then hands the
    document to the file object chunk by chunk, and leaving the [with]
    block closes it. *)
Definition save_state_ops (st : State) : list FsOp :=
  FsTruncate :: map FsWrite (Json.chunks st).

(** What reaches the disk.  The file object is buffered: the chunks are
    collected and go out in pieces the buffer decides, the last one when
    the file is closed; a short document goes out in one piece.
    [disk_ops pieces] are the system calls of a save whose buffer sent
    [pieces]: the truncation of [open], then one write per piece. *)
Definition disk_ops (pieces : list str) : list FsOp :=
  FsTruncate :: map FsWrite pieces.

(** The file when the process dies after [k] of the system calls. *)
Definition crash_after (k : nat) (ops : list FsOp) (file : option str)
    : option str :=
  fold_left fs_step (take k ops) file.

(** The cap spares the identifiers [U] for [n] more appends to [s]: the
    appends can only push out the first [length s + n - 500] identifiers
    of [s], and none of [U] is among them. *)
Definition spared (U s : list str) (n : nat) : Prop :=
  (n <= 500)%nat /\ Forall (fun u => u ∉ U) (take (length s + n - 500) s).

Section Program.
Context {env : Env}.

Definition matches_keywords (title : str) : bool :=
  match KEYWORDS with
  | [] => true
  | _ =>
      let t := str_lower title in
      existsb (fun k => contains (str_lower k) t) KEYWORDS
  end.

Definition load_state : M State := fun m =>
  match m_file m with
  | Some text =>
      match json_load text with
      | Some st => (Ok st, m)
      | None => (Raise JSONDecodeError, m)
      end
  | None => (Ok (mkState ∅), m)
  end.

Definition save_state (st : State) : M unit := fun m =>
  (Ok tt,
   mkMachine (m_state m) (m_trace m ++ [EvSave (Json.dumps st)])
             (fold_left fs_step (save_state_ops st) (m_file m))).

Definition post_to_discord (title url source : str) : M unit := fun m =>
  let content :=
    py "**" ++ title ++ py "**" ++ [10] ++ url ++ [10] ++ py "_(via "
    ++ source ++ py ")_" in
  let ok := requests_post (m_trace m) content in
  let m' := mkMachine (m_state m) (m_trace m ++ [EvPost content ok])
                      (m_file m) in
  if ok then (Ok tt, m') else (Raise RequestException, m').

(** [seen] is the list stored under [url]: reading it, and appending to
    it in place. *)
Definition get_seen (url : str) : M (list str) := fun m =>
  (Ok (seen_of url (m_state m)), m).

Definition append_seen (url uid : str) : M unit := fun m =>
  (Ok tt,
   mkMachine (set_seen url (seen_append (seen_of url (m_state m)) uid)
                       (m_state m))
             (m_trace m) (m_file m)).

Fixpoint process_entries (name url : str) (es : list Entry)
    (new_count : nat) : M nat :=
  match es with
  | [] => mret new_count
  | entry :: rest =>
      let title := strip (or_empty (entry_title entry)) in
      let link := strip (or_empty (entry_link entry)) in
      if negb (truthy title) || negb (truthy link) then
        process_entries name url rest new_count
      else if negb (matches_keywords title) then
        process_entries name url rest new_count
      else
        let uid := uid_for entry in
        seen ← get_seen url;
        if bool_decide (uid ∈ seen) then
          process_entries name url rest new_count
        else
          post_to_discord title link name;;
          append_seen url uid;;
          emit (EvSleep POST_DELAY_SECONDS);;
          process_entries name url rest (S new_count)
  end.

Definition process_feed (name url : str) : M nat := fun m =>
  let parsed := feedparser_parse (m_trace m) url in
  let m1 := mkMachine (m_state m) (m_trace m ++ [EvParse url]) (m_file m) in
  if bozo parsed && negb (nonempty (entries parsed)) then
    (emit (EvPrint (LogWarn name url));; mret 0%nat) m1
  else
    (st ← get_state;
     put_state (setdefault url st);;
     process_entries name url (rev (entries parsed)) 0%nat) m1.

Fixpoint main_loop (feeds : list (str * str)) (totals : nat) : M nat :=
  match feeds with
  | [] => mret totals
  | (name, url) :: rest => fun m =>
      match process_feed name url m with
      | (Ok n, m1) => main_loop rest (totals + n)%nat m1
      | (Raise e, m1) =>
          (emit (EvPrint (LogError name e));; main_loop rest totals) m1
      end
  end.

Definition main : M unit :=
  if present DISCORD_WEBHOOK then
    st ← load_state;
    put_state st;;
    totals ← main_loop FEEDS 0%nat;
    st' ← get_state;
    save_state st';;
    emit (EvPrint (LogDone totals))
  else raise AssertionError.

(** *** What the specification speaks of *)

(** An entry that passes the title, link and keyword tests. *)
Definition candidate (e : Entry) : bool :=
  truthy (strip (or_empty (entry_title e)))
  && truthy (strip (or_empty (entry_link e)))
  && matches_keywords (strip (or_empty (entry_title e))).

(** The eligible entries of a list taken in processing order: the
    candidates whose identifier is not in the seen list when their turn
    comes. *)
Fixpoint eligible (seen : list str) (es : list Entry) : list Entry :=
  match es with
  | [] => []
  | e :: rest =>
      if candidate e && negb (bool_decide (uid_for e ∈ seen)) then
        e :: eligible (seen_append seen (uid_for e)) rest
      else eligible seen rest
  end.

(** The candidates of a list; [roomy]: the cap leaves their identifiers
    alone.  With [n] eligible entries, the appends of one pass can only
    push out the first [length seen0 + n - 500] identifiers of the seen
    list. *)
Definition candidates (es : list Entry) : list Entry :=
  filter (fun e => candidate e = true) es.

Definition roomy (seen0 : list str) (es : list Entry) : Prop :=
  spared (map uid_for (candidates es)) seen0 (length (eligible seen0 es)).

(** The loop of [main] as the specification words it: every configured
    feed is attempted in turn, on the machine the attempts before it
    left; an attempt that raises leaves its error line behind and
    counts for nothing. *)
Definition attempt (m : Machine) (feed : str * str) : Machine :=
  let r := process_feed feed.1 feed.2 m in
  match r.1 with
  | Ok _ => r.2
  | Raise e =>
      mkMachine (m_state r.2) (m_trace r.2 ++ [EvPrint (LogError feed.1 e)])
                (m_file r.2)
  end.

Definition machine_after (feeds : list (str * str)) (m : Machine)
    : Machine :=
  fold_left attempt feeds m.

Definition returned (r : Result nat) : nat :=
  match r with Ok n => n | Raise _ => 0%nat end.

Definition attempts (feeds : list (str * str)) (m : Machine)
    : list (Result nat) :=
  imap (fun i feed =>
          (process_feed feed.1 feed.2 (machine_after (take i feeds) m)).1)
       feeds.

(** Nothing is left to deliver for the feed [url] when its source
    returns [p], and the call will not touch the state. *)
Definition quiet (url : str) (p : Parsed) (st : State) : Prop :=
  eligible (seen_of url st) (rev (entries p)) = []
  /\ (bozo p && negb (nonempty (entries p)) = true
      \/ is_Some (seen st !! url)).

End Program.

(** The message the webhook receives for an entry. *)
Definition message (name : str) (e : Entry) : str :=
  py "**" ++ strip (or_empty (entry_title e)) ++ py "**" ++ [10]
  ++ strip (or_empty (entry_link e)) ++ [10] ++ py "_(via " ++ name ++ py ")_".

(** The events of the entries that went through. *)
Definition delivered_events (name : str) (es : list Entry) : list Event :=
  flat_map (fun e => [EvPost (message name e) true;
                      EvSleep POST_DELAY_SECONDS]) es.

(** The events of one call of [process_feed]: the parse, the warning of
    a feed that could not be read, the entries that went through, and the
    delivery that was rejected. *)
Definition skipped (p : Parsed) : bool := bozo p && negb (nonempty (entries p)).

Definition feed_events (name url : str) (p : Parsed) (done : list Entry)
    (failed : option Entry) : list Event :=
  [EvParse url]
  ++ (if skipped p then [EvPrint (LogWarn name url)] else [])
  ++ delivered_events name done
  ++ match failed with
     | Some e => [EvPost (message name e) false]
     | None => []
     end.

(** How the processing of one feed went: what the source returned, the
    entries delivered, and the entry whose delivery was rejected, if any. *)
Record Outcome := mkOutcome {
  o_parsed : Parsed;
  o_done : list Entry;
  o_failed : option Entry
}.

(** The events of one turn of the loop of [main], and of a whole loop. *)
Definition feed_block (feed : str * str) (o : Outcome) : list Event :=
  feed_events feed.1 feed.2 (o_parsed o) (o_done o) (o_failed o)
  ++ match o_failed o with
     | Some _ => [EvPrint (LogError feed.1 RequestException)]
     | None => []
     end.

Definition run_events (feeds : list (str * str)) (os : list Outcome)
    : list Event :=
  concat (zip_with feed_block feeds os).

(** The outcome [o] is how the call of [process_feed] for [feed] goes on
    the machine [m]: what the source returns, the eligible entries it
    delivers, all of them when it returns and those before the rejected
    one when it raises. *)
Definition processed {env : Env} (feed : str * str) (m : Machine)
    (o : Outcome)
    : Prop :=
  let p := feedparser_parse (m_trace m) feed.2 in
  let E := eligible (seen_of feed.2 (m_state m)) (rev (entries p)) in
  let r := process_feed feed.1 feed.2 m in
  o_parsed o = p
  /\ m_trace r.2
     = m_trace m ++ feed_events feed.1 feed.2 p (o_done o) (o_failed o)
  /\ match o_failed o with
     | None => o_done o = E /\ r.1 = Ok (length E)
     | Some e =>
         exists k : nat,
           o_done o = take k E /\ E !! k = Some e
           /\ r.1 = Raise RequestException
     end.

(** Deliveries of the feeds that ran to their end, and of those that were
    cut short. *)
Definition completed_count (o : Outcome) : nat :=
  match o_failed o with
  | None => length (o_done o)
  | Some _ => 0%nat
  end.

Definition aborted_count (o : Outcome) : nat :=
  match o_failed o with
  | None => 0%nat
  | Some _ => length (o_done o)
  end.

(** A rejected delivery is followed at once by the line that logs the
    error. *)
Definition error_follows (evs : list Event) : Prop :=
  forall (i : nat) (c : str),
    evs !! i = Some (EvPost c false) ->
    exists name, evs !! S i = Some (EvPrint (LogError name RequestException)).

Definition is_failed_post (ev : Event) : bool :=
  match ev with EvPost _ false => true | _ => false end.

(** A delivery is followed by a pause at once. *)
Definition pause_follows (evs : list Event) : Prop :=
  forall (i : nat) (c : str),
    evs !! i = Some (EvPost c true) ->
    evs !! S i = Some (EvSleep POST_DELAY_SECONDS).

(** The seen list once the identifiers of [es] are appended. *)
Definition seen_after (seen0 : list str) (es : list Entry) : list str :=
  fold_left seen_append (map uid_for es) seen0.

(** The last [n] elements of a list. *)
Definition lastn {A} (n : nat) (l : list A) : list A := drop (length l - n) l.

(** Readings of a trace. *)
Definition deliveries (tr : list Event) : list str :=
  omap (fun ev => match ev with EvPost c true => Some c | _ => None end) tr.

Definition failures (tr : list Event) : list str :=
  omap (fun ev => match ev with EvPost c false => Some c | _ => None end) tr.

Definition pauses (tr : list Event) : list Q :=
  omap (fun ev => match ev with EvSleep d => Some d | _ => None end) tr.

Definition parses (tr : list Event) : list str :=
  omap (fun ev => match ev with EvParse u => Some u | _ => None end) tr.

Definition saves (tr : list Event) : list str :=
  omap (fun ev => match ev with EvSave t => Some t | _ => None end) tr.

Definition errors_logged (tr : list Event) : list str :=
  omap (fun ev =>
          match ev with EvPrint (LogError n _) => Some n | _ => None end) tr.

Definition totals_printed (tr : list Event) : list nat :=
  omap (fun ev =>
          match ev with EvPrint (LogDone n) => Some n | _ => None end) tr.

(** The identifiers a sequence of record operations really appends. *)
Fixpoint appended (seen : list str) (ops : list str) : list str :=
  match ops with
  | [] => []
  | u :: ops' =>
      if bool_decide (u ∈ seen) then appended seen ops'
      else u :: appended (seen_append seen u) ops'
  end.

(** ** A reader for the documents [save_state] writes *)
Module JsonRead.

Definition is_ws (c : N) : bool :=
  (c =? 32) || (c =? 10) || (c =? 13) || (c =? 9).

Fixpoint skip_ws (s : str) : str :=
  match s with
  | c :: s' => if is_ws c then skip_ws s' else s
  | [] => []
  end.

Definition hexval (c : N) : option N :=
  if (48 <=? c) && (c <=? 57) then Some (c - 48)
  else if (97 <=? c) && (c <=? 102) then Some (c - 87)
  else if (65 <=? c) && (c <=? 70) then Some (c - 55)
  else None.

Definition hex4 (s : str) : option (N * str) :=
  match s with
  | a :: b :: c :: d :: rest =>
      x ← hexval a; y ← hexval b; z ← hexval c; w ← hexval d;
      Some (((x * 16 + y) * 16 + z) * 16 + w, rest)
  | _ => None
  end.

Definition unescape (c : N) : option N :=
  if c =? 34 then Some 34 else if c =? 92 then Some 92
  else if c =? 47 then Some 47 else if c =? 98 then Some 8
  else if c =? 102 then Some 12 else if c =? 110 then Some 10
  else if c =? 114 then Some 13 else if c =? 116 then Some 9
  else None.

(** The characters of a string up to its closing quote. *)
Fixpoint string_body (fuel : nat) (s acc : str) : option (str * str) :=
  match fuel, s with
  | S f, c :: rest =>
      if c =? 34 then Some (rev acc, rest)
      else if c =? 92 then
        match rest with
        | e :: rest' =>
            if e =? 117 then
              '(u, r1) ← hex4 rest';
              let single := string_body f r1 (u :: acc) in
              if (55296 <=? u) && (u <=? 56319) then
                match r1 with
                | b :: e2 :: r2 =>
                    if (b =? 92) && (e2 =? 117) then
                      match hex4 r2 with
                      | Some (v, r3) =>
                          if (56320 <=? v) && (v <=? 57343) then
                            string_body f r3
                              (65536 + (u - 55296) * 1024 + (v - 56320) :: acc)
                          else single
                      | None => single
                      end
                    else single
                | _ => single
                end
              else single
            else
              x ← unescape e; string_body f rest' (x :: acc)
        | [] => None
        end
      else if c <? 32 then None
      else string_body f rest (c :: acc)
  | _, _ => None
  end.

Definition quoted (s : str) : option (str * str) :=
  match s with
  | c :: rest => if c =? 34 then string_body (length rest) rest [] else None
  | [] => None
  end.

Fixpoint list_items (fuel : nat) (s : str) (acc : list str)
    : option (list str * str) :=
  match fuel with
  | S f =>
      '(v, s1) ← quoted s;
      match skip_ws s1 with
      | c :: s2 =>
          if c =? 44 then list_items f (skip_ws s2) (v :: acc)
          else if c =? 93 then Some (rev (v :: acc), s2)
          else None
      | [] => None
      end
  | O => None
  end.

Definition array (s : str) : option (list str * str) :=
  match s with
  | c :: s1 =>
      if c =? 91 then
        match skip_ws s1 with
        | c2 :: s2 =>
            if c2 =? 93 then Some ([], s2)
            else list_items (length s1) (skip_ws s1) []
        | [] => None
        end
      else None
  | [] => None
  end.

Fixpoint dict_items (fuel : nat) (s : str) (acc : gmap str (list str))
    : option (gmap str (list str) * str) :=
  match fuel with
  | S f =>
      '(k, s1) ← quoted s;
      match skip_ws s1 with
      | c :: s2 =>
          if c =? 58 then
            '(v, s3) ← array (skip_ws s2);
            match skip_ws s3 with
            | c2 :: s4 =>
                if c2 =? 44 then dict_items f (skip_ws s4) (<[k := v]> acc)
                else if c2 =? 125 then Some (<[k := v]> acc, s4)
                else None
            | [] => None
            end
          else None
      | [] => None
      end
  | O => None
  end.

Definition object (s : str) : option (gmap str (list str) * str) :=
  match s with
  | c :: s1 =>
      if c =? 123 then
        match skip_ws s1 with
        | c2 :: s2 =>
            if c2 =? 125 then Some (∅, s2)
            else dict_items (length s1) (skip_ws s1) ∅
        | [] => None
        end
      else None
  | [] => None
  end.

(** A document of the form [{"seen": {url: [uid, ...], ...}}]. *)
Definition load (text : str) : option State :=
  match skip_ws text with
  | c :: s1 =>
      if c =? 123 then
        '(k, s2) ← quoted (skip_ws s1);
        if bool_decide (k = py "seen") then
          match skip_ws s2 with
          | c2 :: s3 =>
              if c2 =? 58 then
                '(m, s4) ← object (skip_ws s3);
                match skip_ws s4 with
                | c3 :: s5 =>
                    if (c3 =? 125) && bool_decide (skip_ws s5 = [])
                    then Some (mkState m) else None
                | [] => None
                end
              else None
          | [] => None
          end
        else None
      else None
  | [] => None
  end.

End JsonRead.

(** ** Concrete environments for the examples *)
Module Demo.

Definition ascii_lower (s : str) : str :=
  map (fun c => if (65 <=? c) && (c <=? 90) then c + 32 else c) s.

Definition env (feeds : list (str * str))
    (parse : list Event -> str -> Parsed)
    (post : list Event -> str -> bool) : Env :=
  Build_Env [] feeds (Some (py "https://discord.example/api/webhooks/1"))
            ascii_lower parse post JsonRead.load.

Definition always_ok : list Event -> str -> bool := fun _ _ => true.

(** The webhook rejects [bad] once, and accepts everything afterwards. *)
Definition fail_once (bad : str) : list Event -> str -> bool :=
  fun h c => negb (bool_decide (c = bad)) || nonempty (failures h).

Definition name_a : str := py "CoinDesk".
Definition url_a : str := py "https://www.coindesk.com/arc/outboundfeeds/rss/".
Definition name_b : str := py "Bloomberg".
Definition url_b : str := py "https://feeds.bloomberg.com/markets/news.rss".

Definition item (i t l : string) : Entry :=
  mkEntry (Some (py i)) (Some (py l)) (Some (py t)) None None.

Definition new1 : Entry := item "guid-1" "First" "http://e/1".
Definition new2 : Entry := item "guid-2" "Second" "http://e/2".
Definition new3 : Entry := item "guid-3" "Third" "http://e/3".

(** A source that lists its entries newest first. *)
Definition feed3 : Parsed := mkParsed false [new3; new2; new1].

Definition fresh : Machine := mkMachine (mkState ∅) [] None.

(** One feed, every delivery accepted. *)
Definition env_ok : Env :=
  env [(name_a, url_a)] (fun _ _ => feed3) always_ok.

(** One feed, the delivery of [new2] rejected the first time. *)
Definition env_reject : Env :=
  env [(name_a, url_a)] (fun _ _ => feed3)
      (fail_once (message name_a new2)).

(** A source with a single entry. *)
Definition env_one : Env :=
  env [(name_a, url_a)] (fun _ _ => mkParsed false [new1]) always_ok.

(** Two feeds. *)
Definition feed_b : Parsed :=
  mkParsed false [item "b-2" "Bonds" "http://b/2";
                  item "b-1" "Markets" "http://b/1"].

Definition source2 (u : str) : Parsed :=
  if bool_decide (u = url_a) then feed3 else feed_b.

Definition env_two : Env :=
  env [(name_a, url_a); (name_b, url_b)] (fun _ u => source2 u) always_ok.

Definition env_two_reject : Env :=
  env [(name_a, url_a); (name_b, url_b)] (fun _ u => source2 u)
      (fail_once (message name_a new2)).

(** A seen list at the cap whose oldest identifier is the one of an
    entry the source still lists. *)
Definition pinned : Entry := item "guid-0" "Pinned" "http://e/0".

Definition filler (i : nat) : str :=
  py "seen-" ++ [48 + N.of_nat (i / 100); 48 + N.of_nat (i / 10 mod 10);
                 48 + N.of_nat (i mod 10)].

Definition full_seen : list str := uid_for pinned :: map filler (seq 1 499).

Definition feed_pinned : Parsed := mkParsed false [new2; new1; pinned].

Definition m_full : Machine :=
  mkMachine (mkState {[url_a := full_seen]}) [] None.

Definition env_pinned : Env :=
  env [(name_a, url_a)] (fun _ _ => feed_pinned)
      (fail_once (message name_a new2)).

(** The pinned entry listed as the newest one, behind a new entry whose
    delivery is rejected. *)
Definition env_pinned_later : Env :=
  env [(name_a, url_a)] (fun _ _ => mkParsed false [pinned; new1])
      (fail_once (message name_a new1)).

(** The same seen list found in the state file, a source that lists the
    pinned entry and a new one, and every delivery accepted. *)
Definition m_full_file : Machine :=
  mkMachine (mkState ∅) []
            (Some (Json.dumps (mkState {[url_a := full_seen]}))).

Definition env_pinned_ok : Env :=
  env [(name_a, url_a)] (fun _ _ => mkParsed false [new1; pinned])
      always_ok.

(** A state that holds a seen list for the second feed only. *)
Definition m_other : Machine :=
  mkMachine (mkState {[url_b := [filler 1; filler 2]]}) [] None.

(** More identifiers than the cap allows, all distinct. *)
Definition many_ids : list str := map filler (seq 1 501).

(** A state to save, and the document found in the file before. *)
Definition st_new : State :=
  mkState {[url_a := [uid_for new1; uid_for new2]]}.

Definition st_old : State := mkState {[url_a := [uid_for new1]]}.

(** Two entries with the same id. *)
Definition twin1 : Entry := item "guid-7" "Seven" "http://e/7".
Definition twin2 : Entry := item "guid-7" "Seven, updated" "http://e/7b".

(** The runs the examples look at. *)
Definition run_ok : Result nat * Machine :=
  process_feed (env := env_ok) name_a url_a fresh.

Definition run_one : Result nat * Machine :=
  process_feed (env := env_one) name_a url_a fresh.

Definition run_reject : Result nat * Machine :=
  process_feed (env := env_reject) name_a url_a fresh.

Definition rerun_reject : Result nat * Machine :=
  process_feed (env := env_reject) name_a url_a run_reject.2.

Definition run_pinned : Result nat * Machine :=
  process_feed (env := env_pinned) name_a url_a m_full.

Definition run_pinned_later : Result nat * Machine :=
  process_feed (env := env_pinned_later) name_a url_a m_full.

Definition rerun_pinned : Result nat * Machine :=
  process_feed (env := env_pinned) name_a url_a run_pinned.2.

Definition main_two : Result unit * Machine := main (env := env_two) fresh.

Definition main_ok : Result unit * Machine := main (env := env_ok) fresh.

Definition main_reject : Result unit * Machine :=
  main (env := env_reject) fresh.

Definition main_pinned : Result unit * Machine :=
  main (env := env_pinned_ok) m_full_file.

Definition main_pinned_again : Result unit * Machine :=
  main (env := env_pinned_ok) main_pinned.2.

End Demo.

(** ** Further notions *)

(** A code point that UTF-8 cannot encode. *)
Definition is_surrogate (c : N) : bool := (55296 <=? c) && (c <=? 57343).

(** A string without white space at either end. *)
Definition trimmed (s : str) : Prop :=
  match s with [] => True | c :: _ => isspace c = false end
  /\ match rev s with [] => True | c :: _ => isspace c = false end.

(** The text of a message, from its parts. *)
Definition render (title url source : str) : str :=
  py "**" ++ title ++ py "**" ++ [10] ++ url ++ [10] ++ py "_(via "
  ++ source ++ py ")_".

(** A seen list within the cap and without repetition; a state whose seen
    lists all are. *)
Definition kept (l : list str) : Prop := (length l <= 500)%nat /\ NoDup l.

Definition state_kept (st : State) : Prop :=
  forall url l, seen st !! url = Some l -> kept l.

(** A character of a document written with [ensure_ascii]: a line feed or
    printable ASCII. *)
Definition plain (c : N) : bool := (c =? 10) || ((32 <=? c) && (c <=? 126)).

Module DemoMore.

Definition env_no_webhook : Env :=
  Build_Env [] [(Demo.name_a, Demo.url_a)] None Demo.ascii_lower
            (fun _ _ => Demo.feed3) Demo.always_ok JsonRead.load.

Definition env_empty_webhook : Env :=
  Build_Env [] [(Demo.name_a, Demo.url_a)] (Some []) Demo.ascii_lower
            (fun _ _ => Demo.feed3) Demo.always_ok JsonRead.load.

(** A state file that is cut short. *)
Definition m_corrupt : Machine :=
  mkMachine (mkState ∅) [] (Some (take 13 (Json.dumps Demo.st_new))).

(** Keywords in use. *)
Definition env_keywords : Env :=
  Build_Env [py "ETF"; py "SEC"] [(Demo.name_a, Demo.url_a)]
            (Some (py "https://discord.example/api/webhooks/1"))
            Demo.ascii_lower (fun _ _ => Demo.feed3) Demo.always_ok
            JsonRead.load.

(** A source that could not be read, and one that is read and empty. *)
Definition env_unreadable : Env :=
  Demo.env [(Demo.name_a, Demo.url_a)] (fun _ _ => mkParsed true [])
           Demo.always_ok.

Definition env_empty : Env :=
  Demo.env [(Demo.name_a, Demo.url_a)] (fun _ _ => mkParsed false [])
           Demo.always_ok.

(** Two ids that differ by a lone surrogate. *)
Definition plain_id : Entry :=
  mkEntry (Some (py "ab")) (Some (py "http://e/1")) (Some (py "T")) None None.

Definition surrogate_id : Entry :=
  mkEntry (Some [97; 55296; 98]) (Some (py "http://e/2")) (Some (py "U"))
          None None.

(** An entry without id, its title and link wrapped in white space. *)
Definition padded : Entry :=
  mkEntry None (Some (py "  http://e/9 ")) (Some ([9] ++ py "Nine" ++ [10]))
          (Some (py "2024")) None.

Definition env_padded : Env :=
  Demo.env [(Demo.name_a, Demo.url_a)] (fun _ _ => mkParsed false [padded])
           Demo.always_ok.

(** The same entry listed twice by the source. *)
Definition env_twice : Env :=
  Demo.env [(Demo.name_a, Demo.url_a)]
           (fun _ _ => mkParsed false [Demo.new1; Demo.new2; Demo.new1])
           Demo.always_ok.

End DemoMore.

(** * Verification *)

(** ** SHA-1 test vectors (FIPS 180 examples) *)

Example sha1_abc :
  SHA1.hexdigest (encode_utf8 (py "abc"))
  = py "a9993e364706816aba3e25717850c26c9cd0d89d".
Proof. vm_compute. reflexivity. Qed.

Example sha1_empty :
  SHA1.hexdigest [] = py "da39a3ee5e6b4b0d3255bfef95601890afd80709".
Proof. vm_compute. reflexivity. Qed.

Example sha1_two_blocks :
  SHA1.hexdigest
    (encode_utf8 (py "abcdbcdecdefdefgefghfghighijhijkijkljklmklmnlmnomnopnopq"))
  = py "84983e441c3bd26ebaae4aa1f95129e5e54670f1".
Proof. vm_compute. reflexivity. Qed.


(** ** The monad and the trace readings *)

Section Verification.
Context {env : Env}.

Lemma seen_of_set_seen url l st : seen_of url (set_seen url l st) = l.
Proof. unfold seen_of, set_seen. simpl. by rewrite lookup_insert_eq. Qed.

Lemma seen_set_seen_ne url url' l st :
  url' ≠ url -> seen (set_seen url l st) !! url' = seen st !! url'.
Proof. intros Hne. unfold set_seen. simpl. by rewrite lookup_insert_ne. Qed.

Lemma seen_of_setdefault url st :
  seen_of url (setdefault url st) = seen_of url st.
Proof.
  unfold setdefault, seen_of.
  destruct (seen st !! url) eqn:E; simpl; [by rewrite E|].
  by rewrite lookup_insert_eq.
Qed.

Lemma seen_setdefault_ne url url' st :
  url' ≠ url -> seen (setdefault url st) !! url' = seen st !! url'.
Proof.
  intros Hne. unfold setdefault.
  destruct (seen st !! url); [done|]. by apply seen_set_seen_ne.
Qed.

(** The loop body, one entry at a time. *)
Lemma process_entries_cons name url e rest n m :
  process_entries name url (e :: rest) n m =
  if candidate e && negb (bool_decide (uid_for e ∈ seen_of url (m_state m)))
  then
    if requests_post (m_trace m) (message name e) then
      process_entries name url rest (S n)
        (mkMachine
           (set_seen url (seen_append (seen_of url (m_state m)) (uid_for e))
                     (m_state m))
           (m_trace m ++ [EvPost (message name e) true;
                          EvSleep POST_DELAY_SECONDS])
           (m_file m))
    else
      (Raise RequestException,
       mkMachine (m_state m) (m_trace m ++ [EvPost (message name e) false])
                 (m_file m))
  else process_entries name url rest n m.
Proof.
  unfold candidate. simpl process_entries.
  destruct (truthy (strip (or_empty (entry_title e)))); simpl; [|done].
  destruct (truthy (strip (or_empty (entry_link e)))); simpl; [|done].
  destruct (matches_keywords (strip (or_empty (entry_title e)))); simpl;
    [|done].
  unfold mbind, M_bind, get_seen. simpl.
  destruct (bool_decide (uid_for e ∈ seen_of url (m_state m))); simpl;
    [done|].
  unfold post_to_discord, message. simpl.
  destruct (requests_post _ _); simpl; [|done].
  by rewrite <- app_assoc.
Qed.

(** How a run of the loop relates to the eligible entries: it goes
    through a prefix of them, all of them when it returns, and stops at
    the first rejected delivery otherwise. *)
Lemma process_entries_run name url es : forall n m,
  let E := eligible (seen_of url (m_state m)) es in
  let r := process_entries name url es n m in
  exists k : nat,
    (k <= length E)%nat
    /\ m_file r.2 = m_file m
    /\ seen_of url (m_state r.2)
       = seen_after (seen_of url (m_state m)) (take k E)
    /\ (forall url', url' ≠ url ->
          seen (m_state r.2) !! url' = seen (m_state m) !! url')
    /\ (k = 0%nat -> m_state r.2 = m_state m)
    /\ ((r.1 = Ok (n + k)%nat /\ k = length E
         /\ m_trace r.2 = m_trace m ++ delivered_events name E)
        \/ (exists e, E !! k = Some e /\ r.1 = Raise RequestException
            /\ m_trace r.2
               = m_trace m ++ delivered_events name (take k E)
                 ++ [EvPost (message name e) false]
            /\ exists h, requests_post h (message name e) = false)).
Proof.
  induction es as [|e rest IH]; intros n m E r.
  - exists 0%nat. subst E r. simpl. repeat split; try done.
    left. rewrite Nat.add_0_r, app_nil_r. done.
  - subst E r. rewrite process_entries_cons. simpl eligible.
    destruct (candidate e
              && negb (bool_decide (uid_for e ∈ seen_of url (m_state m))));
      [|apply IH].
    destruct (requests_post (m_trace m) (message name e)) eqn:Hpost.
    + set (m1 := mkMachine _ _ _).
      destruct (IH (S n) m1) as (k & Hk & Hf & Hs & Hfr & H0 & Hres).
      assert (Hm1 : seen_of url (m_state m1)
                    = seen_append (seen_of url (m_state m)) (uid_for e))
        by apply seen_of_set_seen.
      rewrite Hm1 in *.
      exists (S k). simpl. repeat split.
      * lia.
      * done.
      * done.
      * intros url' Hne. rewrite Hfr by done. by apply seen_set_seen_ne.
      * lia.
      * destruct Hres as [(Hr & Hlen & Htr) | (e' & He' & Hr & Htr & Hrej)].
        -- left. rewrite Hr, Htr. subst m1. simpl.
           repeat split; [f_equal; lia | lia | by rewrite <- app_assoc].
        -- right. exists e'. rewrite Hr, Htr. subst m1. simpl.
           split; [done|]. split; [done|].
           split; [by rewrite <- app_assoc | done].
    + exists 0%nat. simpl. repeat split; try done; [lia|].
      right. exists e. repeat split; try done. by eexists.
Qed.

Lemma deliveries_delivered name es :
  deliveries (delivered_events name es) = map (message name) es.
Proof. induction es as [|e es IH]; simpl; [done|]. by rewrite IH. Qed.

Lemma failures_delivered name es : failures (delivered_events name es) = [].
Proof. induction es as [|e es IH]; simpl; done. Qed.

Lemma pauses_delivered name es :
  pauses (delivered_events name es)
  = replicate (length es) POST_DELAY_SECONDS.
Proof. induction es as [|e es IH]; simpl; [done|]. by rewrite IH. Qed.

Lemma parses_delivered name es : parses (delivered_events name es) = [].
Proof. induction es as [|e es IH]; simpl; done. Qed.

Lemma saves_delivered name es : saves (delivered_events name es) = [].
Proof. induction es as [|e es IH]; simpl; done. Qed.

Lemma errors_delivered name es :
  errors_logged (delivered_events name es) = [].
Proof. induction es as [|e es IH]; simpl; done. Qed.

Lemma process_feed_run name url m :
  let p := feedparser_parse (m_trace m) url in
  let E := eligible (seen_of url (m_state m)) (rev (entries p)) in
  let r := process_feed name url m in
  exists k : nat,
    (k <= length E)%nat
    /\ m_file r.2 = m_file m
    /\ seen_of url (m_state r.2)
       = seen_after (seen_of url (m_state m)) (take k E)
    /\ (forall url', url' ≠ url ->
          seen (m_state r.2) !! url' = seen (m_state m) !! url')
    /\ (k = 0%nat ->
        m_state r.2
        = if skipped p then m_state m else setdefault url (m_state m))
    /\ ((r.1 = Ok k /\ k = length E
         /\ m_trace r.2 = m_trace m ++ feed_events name url p E None)
        \/ (exists e, E !! k = Some e /\ r.1 = Raise RequestException
            /\ m_trace r.2
               = m_trace m ++ feed_events name url p (take k E) (Some e)
            /\ exists h, requests_post h (message name e) = false)).
Proof.
  intros p E r. subst r. unfold process_feed. fold p.
  unfold feed_events, skipped.
  destruct (bozo p && negb (nonempty (entries p))) eqn:Hskip.
  - assert (HE : E = []).
    { subst E. apply andb_true_iff in Hskip as [_ Hne].
      destruct (entries p); [done | discriminate]. }
    exists 0%nat. rewrite HE. simpl. repeat split; try done.
    left. repeat split. by rewrite <- app_assoc.
  - unfold mbind, M_bind, get_state, put_state. simpl.
    set (m1 := mkMachine _ _ _).
    destruct (process_entries_run name url (rev (entries p)) 0%nat m1)
      as (k & Hk & Hf & Hs & Hfr & H0 & Hres).
    assert (Hm1 : seen_of url (m_state m1) = seen_of url (m_state m))
      by apply seen_of_setdefault.
    rewrite Hm1 in *. fold E in Hk, Hs, Hres.
    exists k. repeat split; try done.
    + intros url' Hne. rewrite Hfr by done. by apply seen_setdefault_ne.
    + destruct Hres as [(Hr & Hlen & Htr) | (e' & He' & Hr & Htr & Hrej)].
      * left. rewrite Hr, Htr. subst m1. simpl.
        repeat split; [done | by rewrite <- app_assoc, app_nil_r].
      * right. exists e'. rewrite Hr, Htr. subst m1. simpl.
        split; [done|]. split; [done|].
        split; [by rewrite <- app_assoc | done].
Qed.

Lemma totals_delivered name es :
  totals_printed (delivered_events name es) = [].
Proof. induction es as [|e es IH]; simpl; done. Qed.

Lemma feed_events_readings name url p done failed :
  deliveries (feed_events name url p done failed) = map (message name) done
  /\ pauses (feed_events name url p done failed)
     = replicate (length done) POST_DELAY_SECONDS
  /\ parses (feed_events name url p done failed) = [url]
  /\ saves (feed_events name url p done failed) = []
  /\ failures (feed_events name url p done failed)
     = match failed with Some e => [message name e] | None => [] end.
Proof.
  unfold feed_events, deliveries, pauses, parses, saves, failures.
  rewrite !omap_app.
  fold (deliveries (delivered_events name done)).
  fold (pauses (delivered_events name done)).
  fold (parses (delivered_events name done)).
  fold (saves (delivered_events name done)).
  fold (failures (delivered_events name done)).
  rewrite deliveries_delivered, pauses_delivered, parses_delivered,
    saves_delivered, failures_delivered.
  destruct (skipped p), failed; simpl; by rewrite ?app_nil_r.
Qed.

Lemma pause_follows_delivered name done tail :
  pause_follows tail -> pause_follows (delivered_events name done ++ tail).
Proof.
  intros Ht. induction done as [|e done IH]; [done|].
  intros [|[|i]] c; simpl.
  - done.
  - intros [=].
  - apply IH.
Qed.

Lemma pause_follows_feed_events name url p done failed :
  pause_follows (feed_events name url p done failed).
Proof.
  unfold feed_events.
  assert (Ht : pause_follows
                 (delivered_events name done ++
                  match failed with
                  | Some e => [EvPost (message name e) false]
                  | None => []
                  end)).
  { apply pause_follows_delivered.
    destruct failed; intros [|[|i]] c; simpl; by intros [=]. }
  destruct (skipped p); simpl.
  - intros [|[|i]] c; simpl; [by intros [=].. | apply Ht].
  - intros [|i] c; simpl; [by intros [=] | apply Ht].
Qed.

(** ** Eligible entries *)

Lemma eligible_sublist s es : sublist (eligible s es) es.
Proof.
  revert s. induction es as [|e es IH]; intros s; simpl.
  - constructor.
  - destruct (candidate e && negb (bool_decide (uid_for e ∈ s))).
    + apply sublist_skip, IH.
    + apply sublist_cons, IH.
Qed.

Lemma eligible_candidate s es : Forall (fun e => candidate e = true) (eligible s es).
Proof.
  revert s. induction es as [|e es IH]; intros s; simpl; [constructor|].
  destruct (candidate e) eqn:Hc; simpl; [|apply IH].
  destruct (bool_decide (uid_for e ∈ s)); simpl; [apply IH|].
  constructor; [done | apply IH].
Qed.

(** Where the cap never bites and no identifier occurs twice, the
    eligible entries are those the three tests pick on the seen list as
    it was before the call. *)
Lemma filter_agree {A} (P Q : A -> Prop) `{!forall x, Decision (P x)}
    `{!forall x, Decision (Q x)} (l : list A) :
  (forall x, x ∈ l -> P x <-> Q x) -> filter P l = filter Q l.
Proof.
  induction l as [|x l IH]; intros Hpq; [done|].
  rewrite !filter_cons.
  assert (Hx : P x <-> Q x) by (apply Hpq; left).
  rewrite IH by (intros y Hy; apply Hpq; by right).
  destruct (decide (P x)), (decide (Q x)); tauto.
Qed.

Lemma seen_append_room s u :
  (length s < 500)%nat -> seen_append s u = s ++ [u].
Proof.
  intros Hlen. unfold seen_append. rewrite length_app. simpl.
  destruct (Nat.ltb_spec 500 (length s + 1)); [lia | done].
Qed.

Lemma eligible_filter s es :
  NoDup (map uid_for (candidates es)) ->
  (length s + length (candidates es) <= 500)%nat ->
  eligible s es
  = filter (fun e => candidate e = true /\ uid_for e ∉ s) es.
Proof.
  revert s. induction es as [|e es IH]; intros s Hnd Hlen; [done|].
  simpl eligible. unfold candidates in *. rewrite filter_cons in Hnd, Hlen.
  rewrite filter_cons.
  destruct (candidate e) eqn:Hc; simpl.
  - rewrite decide_True in Hnd, Hlen by done. simpl in Hnd, Hlen.
    apply NoDup_cons in Hnd as [Hnotin Hnd].
    destruct (bool_decide_reflect (uid_for e ∈ s)) as [Hin|Hin]; simpl.
    + rewrite decide_False by tauto. apply IH; [done | lia].
    + rewrite decide_True by tauto. f_equal.
      rewrite seen_append_room by lia.
      rewrite IH; [|done|rewrite length_app; simpl; lia].
      apply filter_agree. intros x Hxin. split.
      * intros [Hx Hxs]. split; [done|].
        intros Hin'. apply Hxs, elem_of_app. by left.
      * intros [Hx Hxs]. split; [done|].
        rewrite elem_of_app, list_elem_of_singleton.
        intros [?|Heq]; [done|].
        apply Hnotin. rewrite <- Heq. apply list_elem_of_fmap_2.
        by apply list_elem_of_filter.
  - rewrite decide_False in Hnd, Hlen by congruence. by apply IH.
Qed.

(** ** Identifiers *)

Lemma hexdigit_lower n : is_lower_hex (SHA1.hexdigit (n mod 16)) = true.
Proof.
  assert (Hlt : n mod 16 < 16) by (apply N.mod_lt; lia).
  unfold SHA1.hexdigit, is_lower_hex.
  generalize dependent (n mod 16). intros r Hlt.
  destruct (N.ltb_spec r 10);
    apply orb_true_iff; [left | right];
    apply andb_true_iff; split; apply N.leb_le; lia.
Qed.

Lemma hex8_spec w :
  length (SHA1.hex8 w) = 8%nat
  /\ Forall (fun c => is_lower_hex c = true) (SHA1.hex8 w).
Proof.
  unfold SHA1.hex8. split; [done|].
  apply Forall_fmap, Forall_forall. intros i _. apply hexdigit_lower.
Qed.

Lemma hexdigest_spec msg :
  length (SHA1.hexdigest msg) = 40%nat
  /\ Forall (fun c => is_lower_hex c = true) (SHA1.hexdigest msg).
Proof.
  unfold SHA1.hexdigest. split.
  - rewrite !length_app. by rewrite !(proj1 (hex8_spec _)).
  - repeat (apply Forall_app; split); apply hex8_spec.
Qed.

(** C3.  The identifier of an entry is the hexadecimal SHA-1 digest, 40
    lower-case digits, of the UTF-8 bytes of its basis string; the
    basis is the id when it is present and non-empty, else the link when
    it is present and non-empty, else title, published and updated
    joined, each read as the empty string when missing.  Entries with
    the same basis have the same identifier. *)
Theorem uid_for_hashes_basis (entry : Entry) :
  uid_for entry = SHA1.hexdigest (encode_utf8 (spec_basis entry))
  /\ length (uid_for entry) = 40%nat
  /\ Forall (fun c => is_lower_hex c = true) (uid_for entry)
  /\ (forall entry',
        spec_basis entry' = spec_basis entry ->
        uid_for entry' = uid_for entry).
Proof.
  assert (Hb : forall e,
             uid_for e = SHA1.hexdigest (encode_utf8 (spec_basis e))).
  { intros [i l t p u]. unfold uid_for, spec_basis. simpl.
    destruct i as [[|c i]|]; simpl; try done;
      destruct l as [[|c' l]|]; simpl; done. }
  split; [apply Hb|].
  split; [rewrite Hb; apply hexdigest_spec|].
  split; [rewrite Hb; apply hexdigest_spec|].
  intros entry' Heq. by rewrite !Hb, Heq.
Qed.

(** ** The state file *)

Lemma fs_writes cs : forall content,
  fold_left fs_step (map FsWrite cs) (Some content)
  = Some (content ++ concat cs).
Proof.
  induction cs as [|c cs IH]; intros content; simpl.
  - by rewrite app_nil_r.
  - by rewrite IH, <- app_assoc.
Qed.

Lemma save_state_ops_complete st file :
  fold_left fs_step (save_state_ops st) file = Some (Json.dumps st).
Proof. unfold save_state_ops. simpl. by rewrite fs_writes. Qed.

Lemma crash_after_writes (cs : list str) (k : nat) file :
  crash_after (S k) (FsTruncate :: map FsWrite cs) file
  = Some (concat (take k cs)).
Proof.
  unfold crash_after. rewrite firstn_cons. simpl fold_left.
  by rewrite firstn_map, fs_writes.
Qed.

Lemma take_concat_prefix (cs : list str) (k : nat) :
  exists j : nat, concat (take k cs) = take j (concat cs).
Proof.
  revert k. induction cs as [|c cs IH]; intros [|k]; simpl.
  - by exists 0%nat.
  - by exists 0%nat.
  - exists 0%nat. by rewrite take_0.
  - destruct (IH k) as [j Hj]. exists (length c + j)%nat.
    by rewrite Hj, take_app_add.
Qed.

#[local] Instance str_leb_total : Total (fun a b : str => Json.str_leb a b).
Proof.
  intros a. induction a as [|x a IH]; intros [|y b]; simpl; auto.
  destruct (N.ltb_spec x y); simpl; [auto|].
  destruct (N.ltb_spec y x); simpl; [auto|].
  assert (x = y) as -> by lia. rewrite N.eqb_refl. simpl. apply IH.
Qed.

#[local] Instance str_leb_trans :
  Transitive (fun a b : str => Json.str_leb a b).
Proof.
  intros a. induction a as [|x a IH]; intros [|y b] [|z c]; simpl;
    try done.
  intros Hab Hbc.
  apply Is_true_true in Hab. apply Is_true_true in Hbc.
  apply Is_true_true.
  apply orb_true_iff in Hab. apply orb_true_iff in Hbc.
  apply orb_true_iff.
  destruct Hab as [Hxy | Hxy]; destruct Hbc as [Hyz | Hyz];
    repeat match goal with
      | Hc : (_ <? _) = true |- _ => apply N.ltb_lt in Hc
      | Hc : _ && _ = true |- _ =>
          apply andb_true_iff in Hc as [?%N.eqb_eq ?]
      end; subst.
  - left. apply N.ltb_lt. lia.
  - left. by apply N.ltb_lt.
  - left. by apply N.ltb_lt.
  - right. rewrite N.eqb_refl. simpl.
    apply Is_true_true. eapply IH; apply Is_true_true; eassumption.
Qed.

#[local] Instance key_le_total {V} : Total (@Json.key_le V).
Proof. intros p q. apply str_leb_total. Qed.

#[local] Instance key_le_trans {V} : Transitive (@Json.key_le V).
Proof. intros p q r. apply str_leb_trans. Qed.

(** The chunks of [json.dump], put together, are the document of the
    sorted items. *)
Lemma concat_iterencode_list (l : list str) (level : nat) :
  concat (Json.iterencode_list l level) = Json.list_text level l.
Proof.
  destruct l as [|v vs]; unfold Json.iterencode_list, Json.list_text.
  - cbn [concat]. by rewrite app_nil_r.
  - cbn [concat]. rewrite concat_app, flat_map_concat_map.
    cbn [concat]. by rewrite app_nil_r, <- !app_assoc.
Qed.

Lemma concat_dict_items (items : list (str * list str)) :
  concat (Json.dict_items Json.iterencode_list items 2 false)
  = flat_map (fun x => py "," ++ Json.newline_indent 2 ++ Json.feed_text x)
             items.
Proof.
  induction items as [|[k v] items IH]; [done|].
  cbn [Json.dict_items flat_map]. rewrite !concat_app, IH.
  cbn [concat]. rewrite concat_iterencode_list, !app_nil_r.
  unfold Json.feed_text. cbn [fst snd]. by rewrite <- !app_assoc.
Qed.

Lemma concat_iterencode_dict (items : list (str * list str)) :
  concat (Json.iterencode_dict Json.iterencode_list items 1)
  = Json.feeds_text items.
Proof.
  destruct items as [|[k v] items];
    unfold Json.iterencode_dict, Json.feeds_text.
  - cbn [concat]. by rewrite app_nil_r.
  - cbn [Json.dict_items]. rewrite !concat_app, concat_dict_items.
    cbn [concat]. rewrite concat_iterencode_list, !app_nil_r.
    unfold Json.feed_text. cbn [fst snd]. by rewrite <- !app_assoc.
Qed.

Lemma concat_iterencode_single {V} (enc : V -> nat -> list str) (k : str)
    (v : V) (level : nat) :
  concat (Json.iterencode_dict enc [(k, v)] level)
  = py "{" ++ Json.newline_indent (S level) ++ Json.encode_str k ++ py ": "
    ++ concat (enc v (S level)) ++ Json.newline_indent level ++ py "}".
Proof.
  unfold Json.iterencode_dict. cbn [Json.dict_items].
  rewrite !concat_app. cbn [concat].
  by rewrite !app_nil_r, <- !app_assoc.
Qed.

Lemma dumps_document (st : State) :
  Json.dumps st = Json.document (Json.sorted_items (seen st)).
Proof.
  unfold Json.dumps, Json.chunks, Json.document.
  rewrite concat_iterencode_single.
  by rewrite concat_iterencode_dict.
Qed.


(** ** The seen list and its cap *)

Lemma seen_append_lastn s u : seen_append s u = lastn 500 (s ++ [u]).
Proof.
  unfold seen_append, lastn.
  destruct (Nat.ltb_spec 500 (length (s ++ [u]))); [done|].
  replace (length (s ++ [u]) - 500)%nat with 0%nat by lia. done.
Qed.

Lemma length_lastn {A} n (l : list A) :
  length (lastn n l) = Nat.min n (length l).
Proof. unfold lastn. rewrite length_drop. lia. Qed.

Lemma lastn_all {A} n (l : list A) : (length l <= n)%nat -> lastn n l = l.
Proof.
  intros Hle. unfold lastn.
  replace (length l - n)%nat with 0%nat by lia. done.
Qed.

Lemma lastn_app_lastn {A} n (l a : list A) :
  lastn n (lastn n l ++ a) = lastn n (l ++ a).
Proof.
  unfold lastn. rewrite !length_app, length_drop.
  rewrite <- (drop_app_le l a (length l - n)) by lia.
  rewrite drop_drop. f_equal. lia.
Qed.

Lemma length_seen_append s u : (length (seen_append s u) <= 500)%nat.
Proof. rewrite seen_append_lastn, length_lastn. lia. Qed.

Lemma seen_append_subseteq s u : seen_append s u ⊆ s ++ [u].
Proof. rewrite seen_append_lastn. apply subseteq_drop. Qed.

Lemma seen_append_last s u : u ∈ seen_append s u.
Proof.
  rewrite seen_append_lastn. unfold lastn.
  rewrite length_app. simpl.
  destruct (decide (length s + 1 - 500 <= length s)%nat) as [Hle|Hgt];
    [|lia].
  rewrite drop_app_le by done. apply elem_of_app. right. by left.
Qed.

Lemma record_lastn ops : forall s,
  (length s <= 500)%nat ->
  fold_left record ops s = lastn 500 (s ++ appended s ops).
Proof.
  induction ops as [|u ops IH]; intros s Hlen; simpl.
  - by rewrite app_nil_r, lastn_all.
  - unfold record at 2.
    destruct (bool_decide (u ∈ s)); [by apply IH|].
    rewrite IH by apply length_seen_append.
    rewrite seen_append_lastn, lastn_app_lastn.
    by rewrite <- app_assoc.
Qed.

Lemma appended_fresh ops : forall s,
  NoDup ops -> (forall u, u ∈ ops -> u ∉ s) -> appended s ops = ops.
Proof.
  induction ops as [|u ops IH]; intros s Hnd Hfresh; [done|].
  simpl. apply NoDup_cons in Hnd as [Hu Hnd].
  rewrite bool_decide_eq_false_2 by (apply Hfresh; left).
  f_equal. apply IH; [done|].
  intros v Hv Hin. apply seen_append_subseteq in Hin.
  apply elem_of_app in Hin as [Hin|Hin].
  - apply (Hfresh v); [by right | done].
  - apply list_elem_of_singleton in Hin. congruence.
Qed.

Lemma candidates_cons e es :
  candidates (e :: es)
  = if candidate e then e :: candidates es else candidates es.
Proof.
  unfold candidates. rewrite filter_cons.
  destruct (candidate e); [by rewrite decide_True | by rewrite decide_False].
Qed.

(** The loop of [process_feed] records the identifiers of the
    candidates, one record operation each. *)
Lemma eligible_records es : forall s,
  seen_after s (eligible s es)
  = fold_left record (map uid_for (candidates es)) s.
Proof.
  induction es as [|e es IH]; intros s; [done|].
  simpl eligible. rewrite candidates_cons.
  destruct (candidate e); simpl; [|apply IH].
  unfold record at 2.
  destruct (bool_decide (uid_for e ∈ s)); simpl; [apply IH|].
  apply (IH (seen_append s (uid_for e))).
Qed.

(** What a sequence of record operations keeps: no identifier twice,
    nothing that was not recorded, at most 500, and everything as long
    as the cap is not reached. *)
Lemma record_invariant (ops : list str) :
  let s := fold_left record ops [] in
  NoDup s /\ s ⊆ ops /\ (length s <= 500)%nat
  /\ ((length s < 500)%nat -> ops ⊆ s).
Proof.
  induction ops as [|u ops IH] using rev_ind; simpl.
  - repeat split; [constructor | done | lia | done].
  - rewrite fold_left_app. simpl.
    destruct IH as (Hnd & Hsub & Hlen & Hall).
    set (s := fold_left record ops []) in *.
    unfold record. destruct (bool_decide_reflect (u ∈ s)) as [Hin|Hin].
    + repeat split; [done | | done |].
      * intros x Hx. apply elem_of_app. left. by apply Hsub.
      * intros Hlt x Hx. apply elem_of_app in Hx as [Hx|Hx].
        -- by apply Hall.
        -- apply list_elem_of_singleton in Hx. by subst x.
    + assert (Hnd' : NoDup (s ++ [u])).
      { apply NoDup_app. repeat split; [done | | apply NoDup_singleton].
        intros x Hx Hxu. apply list_elem_of_singleton in Hxu. congruence. }
      repeat split.
      * rewrite seen_append_lastn.
        eapply sublist_NoDup; [exact Hnd' | apply sublist_drop].
      * intros x Hx. apply seen_append_subseteq in Hx.
        apply elem_of_app in Hx as [Hx|Hx]; apply elem_of_app;
          [left; by apply Hsub | by right].
      * apply length_seen_append.
      * rewrite seen_append_lastn, length_lastn, length_app.
        change (length [u]) with 1%nat.
        intros Hlt.
        rewrite lastn_all
          by (rewrite length_app; change (length [u]) with 1%nat; lia).
        assert (Hs : (length s < 500)%nat) by lia.
        specialize (Hall Hs).
        intros x Hx. apply elem_of_app in Hx as [Hx|Hx]; apply elem_of_app;
          [left; by apply Hall | by right].
Qed.


(** ** One call of [process_feed] *)

(** A call that returns, and a call that raises. *)
Lemma process_feed_returns name url m n m' :
  process_feed name url m = (Ok n, m') ->
  let p := feedparser_parse (m_trace m) url in
  let E := eligible (seen_of url (m_state m)) (rev (entries p)) in
  n = length E
  /\ m_trace m' = m_trace m ++ feed_events name url p E None
  /\ seen_of url (m_state m') = seen_after (seen_of url (m_state m)) E
  /\ m_file m' = m_file m
  /\ (E = [] ->
      m_state m'
      = if skipped p then m_state m else setdefault url (m_state m)).
Proof.
  intros Hrun p E.
  destruct (process_feed_run name url m)
    as (k & _ & Hf & Hs & _ & H0 & Hres).
  rewrite Hrun in *. cbn [fst snd] in *. fold p E in Hs, H0, Hres.
  destruct Hres as [(Hr & Hlen & Htr) | (e' & _ & Hr & _)];
    [|discriminate].
  injection Hr as ->. subst k.
  rewrite firstn_all in Hs.
  repeat split; try done.
  intros HE. apply H0. by rewrite HE.
Qed.

Lemma process_feed_raises name url m e0 m1 :
  process_feed name url m = (Raise e0, m1) ->
  let p := feedparser_parse (m_trace m) url in
  let E := eligible (seen_of url (m_state m)) (rev (entries p)) in
  exists k failing,
    E !! k = Some failing
    /\ e0 = RequestException
    /\ m_trace m1
       = m_trace m ++ feed_events name url p (take k E) (Some failing)
    /\ seen_of url (m_state m1)
       = seen_after (seen_of url (m_state m)) (take k E)
    /\ m_file m1 = m_file m.
Proof.
  intros Hrun p E.
  destruct (process_feed_run name url m)
    as (k & _ & Hf & Hs & _ & _ & Hres).
  rewrite Hrun in *. cbn [fst snd] in *. fold p E in Hs, Hres.
  destruct Hres as [(Hr & _) | (e' & He' & Hr & Htr & _)];
    [discriminate|].
  injection Hr as ->. by exists k, e'.
Qed.

(** A call that returns has done one record operation for each
    candidate, oldest first. *)
Lemma process_feed_records name url m n m' :
  process_feed name url m = (Ok n, m') ->
  seen_of url (m_state m')
  = fold_left record
      (map uid_for
         (candidates (rev (entries (feedparser_parse (m_trace m) url)))))
      (seen_of url (m_state m)).
Proof.
  intros Hrun.
  destruct (process_feed_returns _ _ _ _ _ Hrun) as (_ & _ & Hs & _).
  cbn zeta in Hs. rewrite Hs. apply eligible_records.
Qed.

(** Where every delivery is accepted, the call returns. *)
Lemma process_feed_accepted name url m :
  (forall h c, requests_post h c = true) ->
  exists n, (process_feed name url m).1 = Ok n.
Proof.
  intros Hok.
  destruct (process_feed_run name url m)
    as (k & _ & _ & _ & _ & _ & Hres).
  destruct Hres as [(Hr & _) | (e' & _ & _ & _ & h & Hh)]; [by exists k|].
  rewrite Hok in Hh. discriminate.
Qed.

(** C1.  A call of [process_feed] that returns has delivered to the
    webhook exactly the eligible entries of the feed: the entries whose
    trimmed title and trimmed link are non-empty, whose title passes the
    keyword filter, and whose identifier is not in the feed's seen list
    when their turn comes.  They are delivered in the reverse of the
    order the source returned them, oldest first, and the count returned
    is their number.  Where no identifier occurs twice and the cap is not
    reached, they are the entries the three tests pick on the seen list
    as it was before the call. *)
Theorem process_feed_delivers_eligible name url m n m' :
  process_feed name url m = (Ok n, m') ->
  let seen0 := seen_of url (m_state m) in
  let es := rev (entries (feedparser_parse (m_trace m) url)) in
  deliveries (m_trace m')
  = deliveries (m_trace m) ++ map (message name) (eligible seen0 es)
  /\ failures (m_trace m') = failures (m_trace m)
  /\ n = length (eligible seen0 es)
  /\ sublist (eligible seen0 es) es
  /\ Forall (fun e => candidate e = true) (eligible seen0 es)
  /\ (NoDup (map uid_for (candidates es)) ->
      (length seen0 + length (candidates es) <= 500)%nat ->
      eligible seen0 es
      = filter (fun e => candidate e = true /\ uid_for e ∉ seen0) es).
Proof.
  intros Hrun seen0 es.
  destruct (process_feed_run name url m)
    as (k & _ & _ & _ & _ & _ & Hres).
  rewrite Hrun in Hres. simpl in Hres. fold seen0 es in Hres.
  destruct Hres as [(Hr & Hlen & Htr) | (e' & _ & Hr & _)];
    [|discriminate].
  injection Hr as ->.
  destruct (feed_events_readings name url
              (feedparser_parse (m_trace m) url) (eligible seen0 es) None)
    as (Hd & _ & _ & _ & Hf).
  repeat split.
  - rewrite Htr. unfold deliveries at 1. rewrite omap_app.
    fold (deliveries (m_trace m)). f_equal. apply Hd.
  - rewrite Htr. unfold failures at 1. rewrite omap_app.
    fold (failures (m_trace m)).
    unfold failures in Hf. rewrite Hf. apply app_nil_r.
  - done.
  - apply eligible_sublist.
  - apply eligible_candidate.
  - apply eligible_filter.
Qed.

(** C10.  A call of [process_feed] for a feed URL leaves the seen list
    stored under every other URL as it was, and the state file too,
    whether it returns a count or raises. *)
Theorem process_feed_frame name url m url' :
  url' ≠ url ->
  seen (m_state (process_feed name url m).2) !! url'
  = seen (m_state m) !! url'
  /\ m_file (process_feed name url m).2 = m_file m.
Proof.
  intros Hne.
  destruct (process_feed_run name url m)
    as (k & _ & Hf & _ & Hfr & _ & _).
  split; [by apply Hfr | done].
Qed.

(** C7, as amended.  Every delivery of a call of [process_feed] is
    followed at once by a pause of [POST_DELAY_SECONDS], the last one
    included: a call that delivers [n] entries pauses [n] times. *)
Theorem process_feed_pauses_after_every_delivery name url m :
  exists evs,
    m_trace (process_feed name url m).2 = m_trace m ++ evs
    /\ pause_follows evs
    /\ pauses evs = replicate (length (deliveries evs)) POST_DELAY_SECONDS
    /\ (forall n, (process_feed name url m).1 = Ok n ->
          length (deliveries evs) = n /\ length (pauses evs) = n).
Proof.
  destruct (process_feed_run name url m)
    as (k & _ & _ & _ & _ & _ & Hres).
  simpl in Hres.
  set (p := feedparser_parse (m_trace m) url) in *.
  set (E := eligible _ _) in *.
  destruct Hres as [(Hr & Hlen & Htr) | (e' & _ & Hr & Htr & _)].
  - exists (feed_events name url p E None).
    destruct (feed_events_readings name url p E None)
      as (Hd & Hp & _).
    split; [done|]. split; [apply pause_follows_feed_events|].
    split; [by rewrite Hd, Hp, length_map|].
    intros n Hn. rewrite Hr in Hn. injection Hn as <-.
    by rewrite Hd, Hp, length_map, length_replicate.
  - exists (feed_events name url p (take k E) (Some e')).
    destruct (feed_events_readings name url p (take k E) (Some e'))
      as (Hd & Hp & _).
    split; [done|]. split; [apply pause_follows_feed_events|].
    split; [by rewrite Hd, Hp, length_map|].
    intros n Hn. rewrite Hr in Hn. discriminate.
Qed.


(** ** What the cap spares *)

Lemma spared_weaken U s n : spared U s (S n) -> spared U s n.
Proof.
  intros [Hn HF]. split; [lia|].
  replace (length s + n - 500)%nat
    with (Nat.min (length s + n - 500) (length s + S n - 500)) by lia.
  rewrite <- take_take. by apply Forall_take.
Qed.

Lemma spared_append U s n u :
  spared U s (S n) -> spared U (seen_append s u) n.
Proof.
  intros [Hn HF]. split; [lia|].
  apply Forall_forall. intros x Hx.
  apply elem_of_take in Hx as (i & Hi & Hlt).
  rewrite seen_append_lastn, length_lastn, length_app in Hlt.
  rewrite seen_append_lastn in Hi. unfold lastn in Hi.
  rewrite lookup_drop, length_app in Hi.
  change (length [u]) with 1%nat in Hi, Hlt.
  rewrite lookup_app_l in Hi by lia.
  rewrite Forall_forall in HF. apply HF.
  apply elem_of_take. eexists. split; [exact Hi | lia].
Qed.

Lemma spared_keeps U s n u x :
  spared U s (S n) -> x ∈ U -> x ∈ s -> x ∈ seen_append s u.
Proof.
  intros [Hn HF] HxU Hxs.
  apply list_elem_of_lookup in Hxs as [i Hi].
  assert (Hge : (length s + S n - 500 <= i)%nat).
  { destruct (decide (length s + S n - 500 <= i)%nat) as [|Hlt]; [done|].
    exfalso. rewrite Forall_forall in HF. apply (HF x); [|done].
    apply elem_of_take. exists i. split; [done | lia]. }
  pose proof (lookup_lt_Some _ _ _ Hi) as Hlen.
  rewrite seen_append_lastn. unfold lastn.
  apply list_elem_of_lookup.
  exists (i - (length (s ++ [u]) - 500))%nat.
  rewrite lookup_drop, length_app. change (length [u]) with 1%nat.
  replace (length s + 1 - 500 + (i - (length s + 1 - 500)))%nat with i
    by lia.
  by rewrite lookup_app_l.
Qed.

Lemma seen_after_lastn es : forall s,
  (length s <= 500)%nat ->
  seen_after s es = lastn 500 (s ++ map uid_for es).
Proof.
  induction es as [|e es IH]; intros s Hlen.
  - simpl. by rewrite app_nil_r, lastn_all.
  - unfold seen_after in *. simpl.
    rewrite IH by apply length_seen_append.
    rewrite seen_append_lastn, lastn_app_lastn.
    by rewrite <- app_assoc.
Qed.


Lemma eligible_all_seen es : forall s,
  (forall e, e ∈ es -> candidate e = true -> uid_for e ∈ s) ->
  eligible s es = [].
Proof.
  induction es as [|e es IH]; intros s Hall; [done|].
  simpl. destruct (candidate e) eqn:Hc; simpl.
  - rewrite bool_decide_eq_true_2 by (apply Hall; [by left | done]).
    simpl. apply IH. intros e' He'. apply Hall. by right.
  - apply IH. intros e' He'. apply Hall. by right.
Qed.


Section Resume.
Variable U : list str.

(** An identifier of [U] that is in the seen list stays there while
    eligible entries are delivered. *)
Lemma seen_after_keeps es : forall s k x,
  spared U s (length (eligible s es)) ->
  x ∈ U -> x ∈ s ->
  x ∈ seen_after s (take k (eligible s es)).
Proof.
  induction es as [|e es IH]; intros s k x Hsp HxU Hxs.
  - by destruct k.
  - simpl eligible in *.
    destruct (candidate e && negb (bool_decide (uid_for e ∈ s)));
      [|by apply IH].
    destruct k as [|k]; [done|].
    simpl in *. unfold seen_after in IH. apply IH.
    + by apply spared_append.
    + done.
    + by eapply spared_keeps.
Qed.

(** After a pass that stopped behind the [k] first eligible entries,
    the eligible entries are the remaining ones. *)
Lemma eligible_resume es : forall s k,
  spared U s (length (eligible s es)) ->
  (forall e, e ∈ es -> candidate e = true -> uid_for e ∈ U) ->
  eligible (seen_after s (take k (eligible s es))) es
  = drop k (eligible s es).
Proof.
  induction es as [|e es IH]; intros s k Hsp HU.
  - by destruct k.
  - assert (HU' : forall e', e' ∈ es -> candidate e' = true ->
                             uid_for e' ∈ U)
      by (intros e' He'; apply HU; by right).
    simpl eligible at 2 3. simpl eligible in Hsp.
    destruct (candidate e) eqn:Hc; simpl.
    2:{ rewrite Hc. simpl. simpl in Hsp. by apply IH. }
    assert (HeU : uid_for e ∈ U) by (apply HU; [by left | done]).
    destruct (bool_decide_reflect (uid_for e ∈ s)) as [Hin|Hin];
      simpl in *.
    + rewrite Hc. simpl.
      rewrite bool_decide_eq_true_2 by (by apply seen_after_keeps).
      simpl. by apply IH.
    + destruct k as [|k]; simpl.
      * rewrite Hc. by rewrite bool_decide_eq_false_2.
      * rewrite Hc. simpl.
        change (fold_left seen_append
                  (map uid_for (take k (eligible
                                         (seen_append s (uid_for e)) es)))
                  (seen_append s (uid_for e)))
          with (seen_after (seen_append s (uid_for e))
                  (take k (eligible (seen_append s (uid_for e)) es))).
        rewrite bool_decide_eq_true_2.
        2:{ apply seen_after_keeps;
              [by apply spared_append | done | apply seen_append_last]. }
        simpl. apply IH; [by apply spared_append | done].
Qed.

(** An identifier the cap spares for [n] appends is still there after
    at most [n] of them. *)
Lemma spared_survives us : forall s n x,
  spared U s n -> (length us <= n)%nat -> x ∈ U -> x ∈ s ->
  x ∈ fold_left seen_append us s.
Proof.
  induction us as [|u us IH]; intros s n x Hsp Hlen HxU Hxs; [done|].
  simpl in *. destruct n as [|n]; [lia|].
  apply (IH _ n); [by apply spared_append | lia | done |].
  by eapply spared_keeps.
Qed.

End Resume.


(** ** The loop of [main] *)

Lemma error_follows_skip ev evs :
  is_failed_post ev = false -> error_follows evs ->
  error_follows (ev :: evs).
Proof.
  intros Hev Hevs [|i] c; simpl.
  - intros [= ->]. discriminate.
  - apply Hevs.
Qed.

Lemma error_follows_logged c name evs :
  error_follows evs ->
  error_follows
    (EvPost c false :: EvPrint (LogError name RequestException) :: evs).
Proof.
  intros Hevs [|[|i]] c'; simpl.
  - eauto.
  - intros [=].
  - apply Hevs.
Qed.

Lemma error_follows_delivered name done tail :
  error_follows tail -> error_follows (delivered_events name done ++ tail).
Proof.
  intros Ht. induction done as [|e done IH]; [done|].
  simpl. by repeat apply error_follows_skip.
Qed.

Lemma error_follows_block f o tail :
  error_follows tail -> error_follows (feed_block f o ++ tail).
Proof.
  intros Ht. unfold feed_block, feed_events.
  rewrite <- !app_assoc. simpl.
  apply error_follows_skip; [done|].
  assert (Hrest : error_follows
            (delivered_events f.1 (o_done o) ++
             (match o_failed o with
              | Some e => [EvPost (message f.1 e) false]
              | None => []
              end ++
              match o_failed o with
              | Some _ => [EvPrint (LogError f.1 RequestException)]
              | None => []
              end ++ tail))).
  { apply error_follows_delivered.
    destruct (o_failed o); simpl; [by apply error_follows_logged | done]. }
  destruct (skipped (o_parsed o)); simpl;
    [by apply error_follows_skip | done].
Qed.

Lemma error_follows_run feeds : forall os,
  error_follows (run_events feeds os).
Proof.
  induction feeds as [|f feeds IH]; intros [|o os];
    try (intros i c Hi; by destruct i).
  apply error_follows_block, IH.
Qed.

Lemma feed_block_readings f o :
  parses (feed_block f o) = [f.2]
  /\ saves (feed_block f o) = []
  /\ totals_printed (feed_block f o) = []
  /\ deliveries (feed_block f o) = map (message f.1) (o_done o)
  /\ length (errors_logged (feed_block f o))
     = length (failures (feed_block f o)).
Proof.
  destruct (feed_events_readings f.1 f.2 (o_parsed o) (o_done o)
              (o_failed o)) as (Hd & _ & Hp & Hs & Hf).
  assert (Ht : totals_printed
                 (feed_events f.1 f.2 (o_parsed o) (o_done o) (o_failed o))
               = []).
  { unfold feed_events, totals_printed. rewrite !omap_app.
    fold (totals_printed (delivered_events f.1 (o_done o))).
    rewrite totals_delivered.
    destruct (skipped (o_parsed o)), (o_failed o); done. }
  assert (He : errors_logged
                 (feed_events f.1 f.2 (o_parsed o) (o_done o) (o_failed o))
               = []).
  { unfold feed_events, errors_logged. rewrite !omap_app.
    fold (errors_logged (delivered_events f.1 (o_done o))).
    rewrite errors_delivered.
    destruct (skipped (o_parsed o)), (o_failed o); done. }
  unfold feed_block.
  unfold parses, saves, totals_printed, deliveries, errors_logged, failures
    in *.
  rewrite !omap_app, Hd, Hp, Hs, Hf, Ht, He.
  destruct (o_failed o); simpl; by rewrite ?app_nil_r.
Qed.

Lemma run_events_readings feeds : forall os,
  length os = length feeds ->
  parses (run_events feeds os) = feeds.*2
  /\ saves (run_events feeds os) = []
  /\ totals_printed (run_events feeds os) = []
  /\ length (deliveries (run_events feeds os))
     = (sum_list (map completed_count os)
        + sum_list (map aborted_count os))%nat
  /\ length (errors_logged (run_events feeds os))
     = length (failures (run_events feeds os)).
Proof.
  induction feeds as [|f feeds IH]; intros [|o os] Hlen; try done.
  destruct (IH os) as (Hp & Hs & Ht & Hd & He); [by injection Hlen|].
  destruct (feed_block_readings f o) as (Hp1 & Hs1 & Ht1 & Hd1 & He1).
  change (run_events (f :: feeds) (o :: os))
    with (feed_block f o ++ run_events feeds os).
  unfold parses, saves, totals_printed, deliveries, errors_logged, failures
    in *.
  rewrite !omap_app, !length_app, Hp, Hs, Ht, Hd, He, Hp1, Hs1, Ht1, Hd1, He1.
  rewrite length_map. simpl.
  repeat split; try done.
  unfold completed_count, aborted_count. destruct (o_failed o); lia.
Qed.

Lemma feed_block_completed name url p done :
  feed_block (name, url) (mkOutcome p done None)
  = feed_events name url p done None.
Proof. unfold feed_block. cbn [o_failed o_parsed o_done fst snd]. apply app_nil_r. Qed.

Lemma feed_block_aborted name url p done e :
  feed_block (name, url) (mkOutcome p done (Some e))
  = feed_events name url p done (Some e)
    ++ [EvPrint (LogError name RequestException)].
Proof. done. Qed.

Lemma main_loop_run feeds : forall totals m,
  exists os,
    length os = length feeds
    /\ (main_loop feeds totals m).1
       = Ok (totals + sum_list (map completed_count os))%nat
    /\ m_trace (main_loop feeds totals m).2
       = m_trace m ++ run_events feeds os
    /\ m_file (main_loop feeds totals m).2 = m_file m.
Proof.
  induction feeds as [|[name url] feeds IH]; intros totals m.
  - exists []. simpl. by rewrite Nat.add_0_r, app_nil_r.
  - simpl main_loop.
    destruct (process_feed_run name url m)
      as (k & _ & Hf & _ & _ & _ & Hres).
    simpl in Hres, Hf.
    set (p := feedparser_parse (m_trace m) url) in *.
    set (E := eligible _ _) in *.
    destruct (process_feed name url m) as [r m1] eqn:Hpf.
    cbn [fst snd] in *.
    destruct Hres as [(Hr & Hlen & Htr) | (e' & _ & Hr & Htr & _)]; subst r.
    + subst k.
      destruct (IH (totals + length E)%nat m1)
        as (os & Hlen' & Hres' & Htr' & Hf').
      exists (mkOutcome p E None :: os).
      change (run_events ((name, url) :: feeds) (mkOutcome p E None :: os))
        with (feed_block (name, url) (mkOutcome p E None)
              ++ run_events feeds os).
      rewrite feed_block_completed, Hres', Htr', Htr, Hf', Hf, <- app_assoc.
      split; [simpl; by f_equal|]. split; [|done].
      f_equal. cbn [map sum_list sum_list_with id].
      change (completed_count (mkOutcome p E None)) with (length E). lia.
    + unfold mbind, M_bind, emit. cbn [fst snd].
      set (m2 := mkMachine _ _ _).
      destruct (IH totals m2) as (os & Hlen' & Hres' & Htr' & Hf').
      exists (mkOutcome p (take k E) (Some e') :: os).
      change (run_events ((name, url) :: feeds)
                (mkOutcome p (take k E) (Some e') :: os))
        with (feed_block (name, url) (mkOutcome p (take k E) (Some e'))
              ++ run_events feeds os).
      rewrite feed_block_aborted, Hres', Htr', Hf'. subst m2.
      cbn [m_trace m_file]. rewrite Htr, Hf, <- !app_assoc.
      split; [simpl; by f_equal|]. split; [|done].
      done.
Qed.

Lemma load_state_machine m : (load_state m).2 = m.
Proof.
  unfold load_state. destruct (m_file m); [|done].
  by destruct (json_load _).
Qed.

(** A run of [main] that gets past its first lines: the loop, one save,
    and the summary. *)
Lemma main_run m st0 :
  present DISCORD_WEBHOOK = true ->
  (load_state m).1 = Ok st0 ->
  exists os m',
    length os = length FEEDS
    /\ main m = (Ok tt, m')
    /\ m_trace m'
       = m_trace m ++ run_events FEEDS os
         ++ [EvSave (Json.dumps (m_state m'));
             EvPrint (LogDone (sum_list (map completed_count os)))]
    /\ m_file m' = Some (Json.dumps (m_state m'))
    /\ main_loop FEEDS 0%nat (mkMachine st0 (m_trace m) (m_file m))
       = (Ok (sum_list (map completed_count os)),
          mkMachine (m_state m') (m_trace m ++ run_events FEEDS os)
                    (m_file m)).
Proof.
  intros Hweb Hload.
  pose proof (load_state_machine m) as Hm.
  destruct (load_state m) as [r m0] eqn:Hl. simpl in Hload, Hm. subst r m0.
  set (m0 := mkMachine st0 (m_trace m) (m_file m)).
  destruct (main_loop_run FEEDS 0%nat m0) as (os & Hlen & Hres & Htr & Hf).
  destruct (main_loop FEEDS 0%nat m0) as [r m1] eqn:Hloop.
  simpl in Hres, Htr, Hf. subst r.
  exists os.
  exists (mkMachine (m_state m1)
            (m_trace m1 ++ [EvSave (Json.dumps (m_state m1));
                            EvPrint (LogDone
                                       (sum_list (map completed_count os)))])
            (Some (Json.dumps (m_state m1)))).
  cbn [m_state m_trace m_file].
  split; [done|].
  split; [|split; [by rewrite Htr, <- app_assoc | split; [done|]]].
  2:{ destruct m1 as [s1 t1 f1]. cbn [m_state m_trace m_file] in *.
      by subst t1 f1. }
  unfold main. rewrite Hweb. unfold mbind, M_bind. rewrite Hl.
  unfold put_state. cbn [m_state m_trace m_file]. fold m0. rewrite Hloop.
  unfold get_state, save_state, emit. cbn [m_state m_trace m_file].
  by rewrite save_state_ops_complete, <- app_assoc.
Qed.

(** The loop of [main] makes the attempts the specification speaks of:
    one call of [process_feed] for each feed, on the machine the feeds
    before it left, the error line after a call that raised, and the sum
    of the counts returned. *)
Lemma attempts_cons feed feeds m :
  attempts (feed :: feeds) m
  = (process_feed feed.1 feed.2 m).1 :: attempts feeds (attempt m feed).
Proof. unfold attempts. by rewrite imap_cons. Qed.

Lemma attempt_returned name url m n m1 :
  process_feed name url m = (Ok n, m1) -> attempt m (name, url) = m1.
Proof. intros Hpf. unfold attempt. cbn [fst snd]. by rewrite Hpf. Qed.

Lemma attempt_raised name url m e m1 :
  process_feed name url m = (Raise e, m1) ->
  attempt m (name, url)
  = mkMachine (m_state m1) (m_trace m1 ++ [EvPrint (LogError name e)])
              (m_file m1).
Proof. intros Hpf. unfold attempt. cbn [fst snd]. by rewrite Hpf. Qed.

Lemma main_loop_attempts feeds : forall totals m,
  main_loop feeds totals m
  = (Ok (totals + sum_list (map returned (attempts feeds m)))%nat,
     machine_after feeds m).
Proof.
  induction feeds as [|[name url] feeds IH]; intros totals m.
  - simpl. by rewrite Nat.add_0_r.
  - rewrite attempts_cons. simpl main_loop.
    change (machine_after ((name, url) :: feeds) m)
      with (machine_after feeds (attempt m (name, url))).
    cbn [fst snd].
    destruct (process_feed name url m) as [[n|e] m1] eqn:Hpf.
    + rewrite IH, (attempt_returned _ _ _ _ _ Hpf).
      cbn [fst map sum_list sum_list_with returned id].
      do 2 f_equal. lia.
    + unfold mbind, M_bind, emit. cbn [fst snd].
      rewrite IH, (attempt_raised _ _ _ _ _ Hpf).
      cbn [fst map sum_list sum_list_with returned id].
      done.
Qed.

(** Each turn of the loop is a call of [process_feed] on the machine the
    turns before it left. *)
Lemma machine_after_outcomes feeds : forall m,
  exists os,
    length os = length feeds
    /\ m_trace (machine_after feeds m) = m_trace m ++ run_events feeds os
    /\ m_file (machine_after feeds m) = m_file m
    /\ forall (i : nat) feed o,
         feeds !! i = Some feed -> os !! i = Some o ->
         processed feed (machine_after (take i feeds) m) o.
Proof.
  induction feeds as [|[name url] feeds IH]; intros m.
  - exists []. split; [done|]. split; [by rewrite app_nil_r|].
    split; [done|]. intros i feed o Hf. done.
  - change (machine_after ((name, url) :: feeds) m)
      with (machine_after feeds (attempt m (name, url))).
    destruct (process_feed_run name url m)
      as (k & _ & Hf & _ & _ & _ & Hres).
    cbn zeta in Hres, Hf.
    set (p := feedparser_parse (m_trace m) url) in *.
    set (E := eligible _ _) in *.
    destruct (IH (attempt m (name, url))) as (os & Hlen & Htr & Hfile & Hall).
    destruct (process_feed name url m) as [r m1] eqn:Hpf.
    cbn [fst snd] in *.
    destruct Hres as [(Hr & Hk & Htr1) | (e' & He' & Hr & Htr1 & _)];
      subst r.
    + subst k. rewrite (attempt_returned _ _ _ _ _ Hpf) in *.
      exists (mkOutcome p E None :: os).
      change (run_events ((name, url) :: feeds) (mkOutcome p E None :: os))
        with (feed_block (name, url) (mkOutcome p E None)
              ++ run_events feeds os).
      rewrite feed_block_completed, Htr, Htr1, Hfile, Hf, <- app_assoc.
      split; [simpl; by f_equal|]. split; [done|]. split; [done|].
      intros [|i] feed o Hfeed Ho.
      * injection Hfeed as <-. injection Ho as <-.
        unfold processed. cbn [fst snd o_parsed o_done o_failed take].
        change (machine_after [] m) with m. fold p E.
        rewrite Hpf. cbn [fst snd]. done.
      * change (machine_after (take (S i) ((name, url) :: feeds)) m)
          with (machine_after (take i feeds) (attempt m (name, url))).
        rewrite (attempt_returned _ _ _ _ _ Hpf). by apply Hall.
    + rewrite (attempt_raised _ _ _ _ _ Hpf) in *.
      cbn [m_trace m_file] in *.
      exists (mkOutcome p (take k E) (Some e') :: os).
      change (run_events ((name, url) :: feeds)
                (mkOutcome p (take k E) (Some e') :: os))
        with (feed_block (name, url) (mkOutcome p (take k E) (Some e'))
              ++ run_events feeds os).
      rewrite feed_block_aborted, Htr, Hfile, Htr1, Hf, <- !app_assoc.
      split; [simpl; by f_equal|]. split; [done|]. split; [done|].
      intros [|i] feed o Hfeed Ho.
      * injection Hfeed as <-. injection Ho as <-.
        unfold processed. cbn [fst snd o_parsed o_done o_failed take].
        change (machine_after [] m) with m. fold p E.
        rewrite Hpf. cbn [fst snd]. split; [done|]. split; [done|].
        by exists k.
      * change (machine_after (take (S i) ((name, url) :: feeds)) m)
          with (machine_after (take i feeds) (attempt m (name, url))).
        rewrite (attempt_raised _ _ _ _ _ Hpf). by apply Hall.
Qed.

(** C9.  A run of [main] whose webhook is configured and whose state loads
    attempts every configured feed in the configured order, whatever the
    deliveries do: each feed is processed by [process_feed] on the
    machine the feeds before it left, and an error raised while a feed is
    processed is followed at once by the line that logs it, after which
    the loop goes on with the next feed.  The state file is not touched
    while the feeds are processed; the state is saved once, after the
    last feed, and the file then holds the state as the loop left it.
    The run returns normally. *)
Theorem main_isolates_feed_failures m st0 :
  present DISCORD_WEBHOOK = true ->
  (load_state m).1 = Ok st0 ->
  let m0 := mkMachine st0 (m_trace m) (m_file m) in
  let mL := machine_after FEEDS m0 in
  exists os,
    length os = length FEEDS
    /\ main m
       = (Ok tt,
          mkMachine (m_state mL)
            (m_trace mL
             ++ [EvSave (Json.dumps (m_state mL));
                 EvPrint (LogDone
                            (sum_list (map returned (attempts FEEDS m0))))])
            (Some (Json.dumps (m_state mL))))
    /\ m_trace mL = m_trace m ++ run_events FEEDS os
    /\ (forall (i : nat) feed o,
          FEEDS !! i = Some feed -> os !! i = Some o ->
          processed feed (machine_after (take i FEEDS) m0) o)
    /\ m_file mL = m_file m
    /\ parses (run_events FEEDS os) = FEEDS.*2
    /\ error_follows (run_events FEEDS os)
    /\ length (errors_logged (run_events FEEDS os))
       = length (failures (run_events FEEDS os))
    /\ saves (run_events FEEDS os) = [].
Proof.
  intros Hweb Hload m0 mL.
  destruct (main_run m st0 Hweb Hload)
    as (os' & m' & _ & Hmain & Htr' & Hfile' & Hloop).
  fold m0 in Hloop. rewrite main_loop_attempts in Hloop.
  fold mL in Hloop. injection Hloop as Hsum HmL.
  destruct (machine_after_outcomes FEEDS m0)
    as (os & Hlen & Htr & Hfile & Hall).
  fold mL in Htr, Hfile.
  destruct (run_events_readings FEEDS os Hlen) as (Hp & Hs & _ & _ & He).
  exists os. split; [done|]. split.
  - rewrite Hmain. f_equal. rewrite HmL. cbn [m_state m_trace].
    destruct m' as [s' t' f']. cbn [m_state m_trace m_file] in *.
    rewrite Htr', Hfile', Hsum, <- app_assoc. done.
  - split; [done|]. split; [done|]. split; [done|].
    repeat split; try done. apply error_follows_run.
Qed.

(** ** Two runs in a row *)

Lemma candidates_uid (es : list Entry) e :
  e ∈ es -> candidate e = true -> uid_for e ∈ map uid_for (candidates es).
Proof.
  intros He Hc. apply list_elem_of_fmap_2. unfold candidates.
  by apply list_elem_of_filter.
Qed.

(** The seen list after a delivery, whatever its length before. *)
Lemma seen_after_cons_lastn e es s :
  seen_after s (e :: es) = lastn 500 (s ++ map uid_for (e :: es)).
Proof.
  change (seen_after s (e :: es))
    with (seen_after (seen_append s (uid_for e)) es).
  rewrite seen_after_lastn by apply length_seen_append.
  rewrite seen_append_lastn, lastn_app_lastn.
  by rewrite <- app_assoc.
Qed.

(** At most 500 entries delivered in a row are all recorded. *)
Lemma seen_after_holds es s x :
  (length es <= 500)%nat -> x ∈ es -> uid_for x ∈ seen_after s es.
Proof.
  intros Hlen Hx.
  destruct es as [|e es']; [by apply not_elem_of_nil in Hx|].
  rewrite seen_after_cons_lastn. unfold lastn.
  rewrite length_app, length_map.
  rewrite drop_app_le by lia.
  apply elem_of_app. right. by apply list_elem_of_fmap_2.
Qed.

Lemma seen_after_app s a b :
  seen_after s (a ++ b) = seen_after (seen_after s a) b.
Proof. unfold seen_after. by rewrite map_app, fold_left_app. Qed.

(** The eligible entries of a list in two parts. *)
Lemma eligible_app a : forall s b,
  eligible s (a ++ b)
  = eligible s a ++ eligible (seen_after s (eligible s a)) b.
Proof.
  induction a as [|e a IH]; intros s b; [done|].
  simpl. destruct (candidate e && negb (bool_decide (uid_for e ∈ s)));
    [|apply IH].
  simpl. f_equal. apply IH.
Qed.

(** Where nothing is eligible, every candidate is in the seen list. *)
Lemma eligible_nil_seen es : forall s,
  eligible s es = [] ->
  forall c, c ∈ es -> candidate c = true -> uid_for c ∈ s.
Proof.
  induction es as [|e es IH]; intros s HE c Hc Hcand;
    [by apply not_elem_of_nil in Hc|].
  simpl in HE. destruct (candidate e) eqn:He; simpl in HE.
  - destruct (bool_decide_reflect (uid_for e ∈ s)); simpl in HE;
      [|discriminate].
    apply elem_of_cons in Hc as [->|Hc]; [done|]. by apply (IH s).
  - apply elem_of_cons in Hc as [->|Hc]; [congruence|]. by apply (IH s).
Qed.

(** The place of the [k]-th eligible entry in the list: the entries
    before it yield the [k] eligible entries before it, and it is not in
    the seen list when its turn comes. *)
Lemma eligible_split es : forall s k x,
  eligible s es !! k = Some x ->
  exists pre post,
    es = pre ++ x :: post
    /\ eligible s pre = take k (eligible s es)
    /\ candidate x = true
    /\ uid_for x ∉ seen_after s (take k (eligible s es))
    /\ drop k (eligible s es)
       = x :: eligible (seen_append (seen_after s (take k (eligible s es)))
                                    (uid_for x)) post.
Proof.
  induction es as [|e es IH]; intros s k x Hk; [done|].
  simpl eligible in *.
  destruct (candidate e) eqn:Hc; simpl in *.
  - destruct (bool_decide_reflect (uid_for e ∈ s)) as [Hin|Hin];
      simpl in *.
    + destruct (IH _ _ _ Hk) as (pre & post & -> & Hpre & Hx & Hnot & Hd).
      exists (e :: pre), post. simpl. rewrite Hc. simpl.
      by rewrite bool_decide_eq_true_2.
    + destruct k as [|k]; simpl in *.
      * injection Hk as <-. by exists [], es.
      * destruct (IH _ _ _ Hk)
          as (pre & post & -> & Hpre & Hx & Hnot & Hd).
        exists (e :: pre), post. simpl. rewrite Hc. simpl.
        rewrite bool_decide_eq_false_2 by done. simpl.
        by rewrite Hpre.
  - destruct (IH _ _ _ Hk) as (pre & post & -> & Hpre & Hx & Hnot & Hd).
    exists (e :: pre), post. simpl. by rewrite Hc.
Qed.

(** An eligible entry behind the [k]-th one is not in the seen list the
    [k] first deliveries leave, unless the cap pushes its identifier
    out before its turn. *)
Lemma eligible_later_unrecorded es s k x :
  let E := eligible s es in
  let s1 := seen_after s (take k E) in
  spared (map uid_for (drop (S k) E)) s1 (length (drop (S k) E)) ->
  x ∈ drop (S k) E -> uid_for x ∉ s1.
Proof.
  intros E s1 Hsp Hx Hin.
  pose proof Hx as Hx'.
  apply list_elem_of_lookup in Hx' as [i Hi].
  pose proof (lookup_lt_Some _ _ _ Hi) as Hlt.
  rewrite lookup_drop in Hi.
  destruct (eligible_split _ _ _ _ Hi) as (_ & _ & _ & _ & _ & Hnot & _).
  fold E in Hnot. apply Hnot.
  replace (S k + i)%nat with (k + S i)%nat by lia.
  rewrite <- take_take_drop, seen_after_app. fold s1.
  unfold seen_after.
  apply (spared_survives _ _ _ _ _ Hsp).
  - rewrite length_map, length_take. rewrite !length_drop in *. lia.
  - by apply list_elem_of_fmap_2.
  - done.
Qed.

(** C4, as amended.  When a delivery is rejected, [process_feed] stops
    there: the rejected delivery is the last thing it does, and the only
    identifiers it has appended to the feed's seen list are those of the
    entries delivered before it in this call.  These are in the list when
    they are at most 500; the identifier of the rejected entry is not;
    those of the eligible entries after it are not, unless the cap would
    have pushed them out before their turn.  A later call that finds the
    same seen list and the same entries, and returns, delivers the
    rejected entry and the ones after it, in order, and nothing else,
    provided the identifier of every candidate listed before the rejected
    entry is still in the seen list; otherwise it first delivers one of
    those again. *)
Theorem rejected_delivery_stops_feed_and_is_retried name url m e0 m1 :
  let p := feedparser_parse (m_trace m) url in
  let seen0 := seen_of url (m_state m) in
  let E := eligible seen0 (rev (entries p)) in
  process_feed name url m = (Raise e0, m1) ->
  exists k failing pre post,
    let seen1 := seen_of url (m_state m1) in
    E !! k = Some failing
    /\ rev (entries p) = pre ++ failing :: post
    /\ eligible seen0 pre = take k E
    /\ m_trace m1
       = m_trace m ++ feed_events name url p (take k E) (Some failing)
    /\ deliveries (m_trace m1)
       = deliveries (m_trace m) ++ map (message name) (take k E)
    /\ failures (m_trace m1)
       = failures (m_trace m) ++ [message name failing]
    /\ seen1 = seen_after seen0 (take k E)
    /\ ((k <= 500)%nat -> forall x, x ∈ take k E -> uid_for x ∈ seen1)
    /\ uid_for failing ∉ seen1
    /\ (spared (map uid_for (drop (S k) E)) seen1 (length (drop (S k) E)) ->
        forall x, x ∈ drop (S k) E -> uid_for x ∉ seen1)
    /\ (forall m2 n2 m3,
          seen_of url (m_state m2) = seen1 ->
          feedparser_parse (m_trace m2) url = p ->
          process_feed name url m2 = (Ok n2, m3) ->
          exists E2,
            deliveries (m_trace m3)
            = deliveries (m_trace m2) ++ map (message name) E2
            /\ n2 = length E2
            /\ ((forall c, c ∈ pre -> candidate c = true ->
                           uid_for c ∈ seen1) ->
                E2 = drop k E)
            /\ (~ (forall c, c ∈ pre -> candidate c = true ->
                             uid_for c ∈ seen1) ->
                exists c rest, E2 = c :: rest /\ c ∈ pre)).
Proof.
  intros p seen0 E Hrun.
  destruct (process_feed_raises _ _ _ _ _ Hrun)
    as (k & failing & Hk & _ & Htr & Hs & _).
  fold p seen0 E in Hk, Htr, Hs.
  destruct (eligible_split _ _ _ _ Hk)
    as (pre & post & Hes & Hpre & Hcand & Hnot & Hdrop).
  fold E in Hpre, Hnot, Hdrop.
  exists k, failing, pre, post. cbn zeta.
  split; [done|]. split; [done|]. split; [done|]. split; [done|].
  split; [|split; [|split; [done|split; [|split; [|split]]]]].
  - rewrite Htr. unfold deliveries at 1. rewrite omap_app.
    fold (deliveries (m_trace m)). f_equal.
    apply feed_events_readings.
  - rewrite Htr. unfold failures at 1. rewrite omap_app.
    fold (failures (m_trace m)). f_equal.
    apply feed_events_readings.
  - intros Hle x Hx. rewrite Hs. apply seen_after_holds; [|done].
    rewrite length_take. lia.
  - by rewrite Hs.
  - rewrite Hs. intros Hsp x Hx.
    by apply (eligible_later_unrecorded (rev (entries p)) seen0 k x).
  - intros m2 n2 m3 Hseen Hparse Hrun2.
    destruct (process_feed_returns _ _ _ _ _ Hrun2)
      as (Hn & Htr2 & _).
    rewrite Hparse, Hseen in Hn, Htr2.
    exists (eligible (seen_of url (m_state m1)) (rev (entries p))).
    split; [|split; [done|split]].
    + rewrite Htr2. unfold deliveries at 1. rewrite omap_app.
      fold (deliveries (m_trace m2)). f_equal.
      apply feed_events_readings.
    + intros Hall. rewrite Hes, eligible_app.
      rewrite (eligible_all_seen pre) by done.
      rewrite Hdrop, <- Hs. simpl. rewrite Hcand. simpl.
      rewrite bool_decide_eq_false_2 by (by rewrite Hs). done.
    + intros Hnall. rewrite Hes, eligible_app.
      destruct (eligible (seen_of url (m_state m1)) pre) as [|c rest] eqn:HE.
      * exfalso. apply Hnall. by apply eligible_nil_seen.
      * exists c, (rest ++ eligible
                     (seen_after (seen_of url (m_state m1)) (c :: rest))
                     (failing :: post)).
        split; [done|].
        eapply sublist_subseteq;
          [apply (eligible_sublist (seen_of url (m_state m1)) pre)|].
        rewrite HE. by left.
Qed.

Lemma process_entries_keeps_key name url es : forall n m,
  is_Some (seen (m_state m) !! url) ->
  is_Some (seen (m_state (process_entries name url es n m).2) !! url).
Proof.
  induction es as [|e es IH]; intros n m Hkey; [done|].
  rewrite process_entries_cons.
  destruct (candidate e && _); [|by apply IH].
  destruct (requests_post _ _); [|done].
  apply IH. cbn [m_state]. unfold set_seen. cbn [seen].
  rewrite lookup_insert_eq. by eexists.
Qed.

Lemma setdefault_key url st : is_Some (seen (setdefault url st) !! url).
Proof.
  unfold setdefault. destruct (seen st !! url) eqn:E.
  - rewrite E. by eexists.
  - unfold set_seen. cbn [seen]. rewrite lookup_insert_eq. by eexists.
Qed.

Lemma setdefault_present url st :
  is_Some (seen st !! url) -> setdefault url st = st.
Proof. intros [l Hl]. unfold setdefault. by rewrite Hl. Qed.

Lemma process_feed_sets_key name url m :
  skipped (feedparser_parse (m_trace m) url) = false ->
  is_Some (seen (m_state (process_feed name url m).2) !! url).
Proof.
  intros Hskip. unfold process_feed. unfold skipped in Hskip.
  rewrite Hskip. unfold mbind, M_bind, get_state, put_state.
  cbn [m_state m_trace m_file].
  apply process_entries_keeps_key. cbn [m_state]. apply setdefault_key.
Qed.

Lemma quiet_ext url p st st' :
  seen st' !! url = seen st !! url -> quiet url p st -> quiet url p st'.
Proof.
  intros Heq [HE Hkey]. unfold quiet, seen_of. rewrite Heq. done.
Qed.

Lemma roomy_ext url es st st' :
  seen st' !! url = seen st !! url ->
  roomy (seen_of url st) es -> roomy (seen_of url st') es.
Proof. intros Heq. unfold seen_of. by rewrite Heq. Qed.

(** A quiet feed: the call parses, delivers nothing and returns 0. *)
Lemma process_feed_quiet name url m :
  quiet url (feedparser_parse (m_trace m) url) (m_state m) ->
  process_feed name url m
  = (Ok 0%nat,
     mkMachine (m_state m)
       (m_trace m
        ++ feed_events name url (feedparser_parse (m_trace m) url) [] None)
       (m_file m)).
Proof.
  intros [HE Hkey].
  destruct (process_feed_run name url m)
    as (k & Hk & Hf & _ & _ & H0 & Hres).
  cbn zeta in *. rewrite HE in *.
  assert (k = 0%nat) as -> by (simpl in Hk; lia).
  destruct Hres as [(Hr & _ & Htr) | (e' & He' & _)]; [|done].
  specialize (H0 eq_refl).
  destruct (process_feed name url m) as [r [s1 t1 f1]].
  cbn [fst snd m_state m_trace m_file] in *. subst r t1 f1.
  f_equal. f_equal. rewrite H0. unfold skipped.
  destruct Hkey as [-> | Hkey]; [done|].
  destruct (bozo _ && _); [done|]. by apply setdefault_present.
Qed.

(** A feed with room: the call returns and leaves the feed quiet. *)
Lemma process_feed_settles name url m :
  (forall h c, requests_post h c = true) ->
  roomy (seen_of url (m_state m))
        (rev (entries (feedparser_parse (m_trace m) url))) ->
  exists n m',
    process_feed name url m = (Ok n, m')
    /\ quiet url (feedparser_parse (m_trace m) url) (m_state m').
Proof.
  intros Hok Hroomy.
  destruct (process_feed_accepted name url m Hok) as [n Hn].
  pose proof (process_feed_sets_key name url m) as Hkey.
  destruct (process_feed name url m) as [r m'] eqn:Hrun.
  cbn [fst snd] in *. subst r. exists n, m'. split; [done|].
  destruct (process_feed_returns _ _ _ _ _ Hrun) as (_ & _ & Hs & _).
  cbn zeta in Hs. split.
  - rewrite Hs.
    pose proof (eligible_resume _ _ _
                  (length (eligible (seen_of url (m_state m))
                             (rev (entries
                                     (feedparser_parse (m_trace m) url)))))
                  Hroomy (candidates_uid _)) as Hres.
    rewrite firstn_all in Hres. rewrite Hres. apply drop_all.
  - unfold skipped in Hkey.
    destruct (bozo _ && _); [by left | right; by apply Hkey].
Qed.

Section Stable.
Variable source : str -> Parsed.
Hypothesis stable : forall h u, feedparser_parse h u = source u.
Hypothesis accepted : forall h c, requests_post h c = true.

Lemma process_feed_preserves_quiet name url m u :
  quiet u (source u) (m_state m) ->
  quiet u (source u) (m_state (process_feed name url m).2).
Proof.
  intros Hq. destruct (decide (u = url)) as [->|Hne].
  - rewrite process_feed_quiet by (by rewrite stable). done.
  - eapply quiet_ext; [|done].
    destruct (process_feed_run name url m)
      as (k & _ & _ & _ & Hfr & _). by apply Hfr.
Qed.

Lemma main_loop_settles feeds : forall totals m,
  (forall f, f ∈ feeds ->
     quiet f.2 (source f.2) (m_state m)
     \/ roomy (seen_of f.2 (m_state m)) (rev (entries (source f.2)))) ->
  (forall f, f ∈ feeds ->
     quiet f.2 (source f.2) (m_state (main_loop feeds totals m).2))
  /\ (forall u, quiet u (source u) (m_state m) ->
        quiet u (source u) (m_state (main_loop feeds totals m).2)).
Proof.
  induction feeds as [|[name url] feeds IH]; intros totals m Hall.
  - split; [|done]. intros f Hf. by apply not_elem_of_nil in Hf.
  - simpl main_loop.
    assert (Hq : quiet url (source url)
                   (m_state (process_feed name url m).2)).
    { destruct (Hall (name, url)) as [Hq | Hr]; [by left | |].
      - by apply process_feed_preserves_quiet.
      - cbn [snd] in Hr. rewrite <- (stable (m_trace m)) in Hr.
        destruct (process_feed_settles name url m accepted Hr)
          as (n & m' & Hrun & Hq).
        rewrite Hrun. by rewrite <- (stable (m_trace m)). }
    destruct (process_feed_accepted name url m accepted) as [n Hn].
    pose proof (process_feed_run name url m)
      as (k & _ & _ & _ & Hfr & _).
    destruct (process_feed name url m) as [r m1] eqn:Hrun.
    cbn [fst snd] in *. subst r.
    assert (Hall1 : forall f, f ∈ feeds ->
              quiet f.2 (source f.2) (m_state m1)
              \/ roomy (seen_of f.2 (m_state m1))
                       (rev (entries (source f.2)))).
    { intros f Hf. destruct (decide (f.2 = url)) as [->|Hne];
        [by left|].
      destruct (Hall f) as [Hq' | Hr']; [by right | |].
      - left. eapply quiet_ext; [|done]. by apply Hfr.
      - right. eapply roomy_ext; [|done]. by apply Hfr. }
    destruct (IH (totals + n)%nat m1 Hall1) as [Hfeeds Hkeep].
    split.
    + intros f Hf. apply elem_of_cons in Hf as [->|Hf].
      * by apply Hkeep.
      * by apply Hfeeds.
    + intros u Hu. apply Hkeep.
      pose proof (process_feed_preserves_quiet name url m u Hu) as Hq'.
      by rewrite Hrun in Hq'.
Qed.

Lemma main_loop_quiet feeds : forall totals m,
  (forall f, f ∈ feeds -> quiet f.2 (source f.2) (m_state m)) ->
  exists evs,
    main_loop feeds totals m
    = (Ok totals, mkMachine (m_state m) (m_trace m ++ evs) (m_file m))
    /\ deliveries evs = [].
Proof.
  induction feeds as [|[name url] feeds IH]; intros totals m Hall.
  - exists []. rewrite app_nil_r. by destruct m.
  - simpl main_loop.
    rewrite process_feed_quiet
      by (rewrite stable; apply (Hall (name, url)); by left).
    set (m1 := mkMachine _ _ _).
    destruct (IH (totals + 0)%nat m1) as (evs & Hloop & Hd).
    { intros f Hf. apply Hall. by right. }
    rewrite Hloop. subst m1. cbn [m_state m_trace m_file].
    eexists. rewrite Nat.add_0_r, <- app_assoc. split; [done|].
    unfold deliveries. rewrite omap_app.
    fold (deliveries evs). rewrite Hd, app_nil_r.
    apply (feed_events_readings name url _ [] None).
Qed.

(** C5, as amended.  Let the feed sources return the same entries at
    every call, let every delivery be accepted, and, on the state the
    first run loads, let the cap spare the identifiers of every feed's
    candidates for as many appends as the feed has eligible entries
    ([roomy]).  Then a second run, which loads what the first run
    saved, delivers nothing and prints a total of 0, and the state
    file it writes is the one it found. *)
Theorem second_run_delivers_nothing m0 st0 m1 :
  present DISCORD_WEBHOOK = true ->
  (load_state m0).1 = Ok st0 ->
  (forall f, f ∈ FEEDS ->
     roomy (seen_of f.2 st0) (rev (entries (source f.2)))) ->
  main m0 = (Ok tt, m1) ->
  json_load (Json.dumps (m_state m1)) = Some (m_state m1) ->
  exists m2 evs,
    main m1 = (Ok tt, m2)
    /\ m_trace m2 = m_trace m1 ++ evs
    /\ deliveries evs = []
    /\ totals_printed evs = [0%nat]
    /\ m_file m2 = m_file m1
    /\ m_state m2 = m_state m1.
Proof.
  intros Hweb Hload Hroomy Hmain Hjson.
  destruct (main_run m0 st0 Hweb Hload)
    as (os & m' & _ & Hmain' & _ & Hfile & Hloop).
  rewrite Hmain in Hmain'. injection Hmain' as <-.
  set (ma := mkMachine st0 (m_trace m0) (m_file m0)) in *.
  assert (Hquiet : forall f, f ∈ FEEDS ->
            quiet f.2 (source f.2) (m_state m1)).
  { destruct (main_loop_settles FEEDS 0%nat ma) as [Hq _].
    - intros f Hf. right. by apply Hroomy.
    - rewrite Hloop in Hq. exact Hq. }
  assert (Hload1 : (load_state m1).1 = Ok (m_state m1)).
  { unfold load_state. by rewrite Hfile, Hjson. }
  destruct (main_run m1 (m_state m1) Hweb Hload1)
    as (os2 & m2 & Hlen2 & Hmain2 & Htr2 & Hfile2 & Hloop2).
  set (mb := mkMachine (m_state m1) (m_trace m1) (m_file m1)) in *.
  destruct (main_loop_quiet FEEDS 0%nat mb Hquiet)
    as (evs & Hloop3 & Hd).
  rewrite Hloop2 in Hloop3. subst mb. cbn [m_state m_trace m_file] in *.
  injection Hloop3 as Hsum Hst Hevs.
  apply app_inv_head in Hevs.
  destruct (run_events_readings FEEDS os2 Hlen2) as (_ & _ & Ht & _).
  exists m2. eexists. split; [done|]. split; [exact Htr2|].
  split; [|split; [|split]].
  - unfold deliveries. rewrite omap_app. fold (deliveries (run_events FEEDS os2)).
    by rewrite Hevs, Hd.
  - unfold totals_printed. rewrite omap_app.
    fold (totals_printed (run_events FEEDS os2)).
    rewrite Ht, Hsum. done.
  - by rewrite Hfile2, Hfile, Hst.
  - done.
Qed.

End Stable.

End Verification.

(** * Further properties of the code *)

Section More.
Context {env : Env}.

(** One call of [process_feed], whatever its result: it stops behind the
    first [k] eligible entries. *)
Lemma process_feed_done name url m :
  let p := feedparser_parse (m_trace m) url in
  let E := eligible (seen_of url (m_state m)) (rev (entries p)) in
  let r := process_feed name url m in
  exists (k : nat) (failed : option Entry),
    m_trace r.2 = m_trace m ++ feed_events name url p (take k E) failed
    /\ seen_of url (m_state r.2)
       = seen_after (seen_of url (m_state m)) (take k E)
    /\ r.1 = match failed with
             | None => Ok (length (take k E))
             | Some _ => Raise RequestException
             end.
Proof.
  intros p E r.
  destruct (process_feed_run name url m)
    as (k & Hk & _ & Hs & _ & _ & Hres).
  fold p E r in Hs, Hres, Hk. exists k.
  destruct Hres as [(Hr & Hlen & Htr) | (e' & _ & Hr & Htr & _)].
  - exists None. subst k. rewrite firstn_all in *. done.
  - by exists (Some e').
Qed.

Lemma deliveries_app tr evs :
  deliveries (tr ++ evs) = deliveries tr ++ deliveries evs.
Proof. apply omap_app. Qed.

Lemma deliveries_feed_events name url p done failed :
  deliveries (feed_events name url p done failed) = map (message name) done.
Proof. apply feed_events_readings. Qed.

(** ** The keyword filter *)

Lemma startswith_spec p : forall s,
  startswith p s = true <-> exists post, s = p ++ post.
Proof.
  induction p as [|a p IH]; intros s; simpl.
  - split; [by exists s | done].
  - destruct s as [|b s].
    + split; [done | by intros [post Hpost]].
    + rewrite andb_true_iff, N.eqb_eq, IH. split.
      * intros [-> [post ->]]. by exists post.
      * intros [post [= -> ->]]. split; [done | by exists post].
Qed.

Lemma contains_spec k : forall t,
  contains k t = true <-> exists pre post, t = pre ++ k ++ post.
Proof.
  induction t as [|c t IH]; simpl; rewrite orb_true_iff, startswith_spec.
  - split.
    + intros [[post Hpost] | ?]; [|done]. by exists [], post.
    + intros (pre & post & Ht). left.
      destruct pre; [by exists post | done].
  - rewrite IH. split.
    + intros [[post Hpost] | (pre & post & ->)].
      * by exists [], post.
      * by exists (c :: pre), post.
    + intros (pre & post & Ht). destruct pre as [|c' pre].
      * left. by exists post.
      * right. injection Ht as -> ->. by exists pre, post.
Qed.

(** X1.  A title passes the keyword filter exactly when no keyword is
    configured, or when some keyword, lower-cased, occurs as a
    substring of the lower-cased title. *)
Theorem matches_keywords_spec (title : str) :
  matches_keywords title = true
  <-> KEYWORDS = []
      \/ exists k pre post,
           k ∈ KEYWORDS
           /\ str_lower title = pre ++ str_lower k ++ post.
Proof.
  unfold matches_keywords. destruct KEYWORDS as [|k0 ks] eqn:HK.
  - split; [by left | done].
  - rewrite existsb_exists. split.
    + intros (k & Hin & Hc). right.
      apply contains_spec in Hc as (pre & post & Ht).
      exists k, pre, post. split; [by apply list_elem_of_In | done].
    + intros [? | (k & pre & post & Hin & Ht)]; [done|].
      exists k. split; [by apply list_elem_of_In|].
      apply contains_spec. by exists pre, post.
Qed.

(** ** Identifiers of the entries that are delivered *)

Lemma uid_for_spec_basis e :
  uid_for e = SHA1.hexdigest (encode_utf8 (spec_basis e)).
Proof.
  destruct e as [i l t p u]. unfold uid_for, spec_basis. simpl.
  destruct i as [[|c i]|]; simpl; try done;
    destruct l as [[|c' l]|]; simpl; done.
Qed.

Lemma strip_nil : strip [] = [].
Proof. done. Qed.

Lemma truthy_strip s : truthy (strip s) = true -> s <> [].
Proof. intros Ht ->. by rewrite strip_nil in Ht. Qed.

(** X2.  An entry that passes the title and link tests has a non-empty
    link, so its identifier is the digest of its id or, without a usable
    id, of its link: the fallback on title, published and updated is
    never what identifies an entry that is delivered. *)
Theorem candidate_identified_by_id_or_link (e : Entry) :
  candidate e = true ->
  exists l,
    entry_link e = Some l /\ l <> []
    /\ spec_basis e <> []
    /\ uid_for e
       = SHA1.hexdigest
           (encode_utf8 (if present (entry_id e) then or_empty (entry_id e)
                         else l)).
Proof.
  unfold candidate. rewrite !andb_true_iff. intros [[_ Hl] _].
  apply truthy_strip in Hl.
  destruct e as [i l t p u]. simpl in *.
  destruct l as [l|]; [|done]. simpl in Hl.
  exists l. split; [done|]. split; [done|].
  destruct l as [|c l]; [done|].
  unfold uid_for, spec_basis. simpl.
  destruct i as [[|c' i]|]; simpl; done.
Qed.

Lemma utf8_char_surrogate c : is_surrogate c = true -> utf8_char c = [].
Proof.
  unfold is_surrogate, utf8_char. intros Hs. rewrite Hs.
  apply andb_true_iff in Hs as [Hlo Hhi]. apply N.leb_le in Hlo.
  destruct (N.ltb_spec c 128); [lia|].
  destruct (N.ltb_spec c 2048); [lia | done].
Qed.

Lemma encode_utf8_drops_surrogates s :
  encode_utf8 (filter (fun c => is_surrogate c = false) s) = encode_utf8 s.
Proof.
  induction s as [|c s IH]; [done|].
  rewrite filter_cons. unfold encode_utf8 in *.
  destruct (is_surrogate c) eqn:Hc.
  - rewrite decide_False by done. simpl.
    by rewrite utf8_char_surrogate, IH.
  - rewrite decide_True by done. simpl. by rewrite IH.
Qed.

(** X3.  Surrogate code points are dropped before hashing: two entries
    whose basis strings differ only by surrogates get the same
    identifier. *)
Theorem uid_for_ignores_surrogates (e e' : Entry) :
  filter (fun c => is_surrogate c = false) (spec_basis e')
  = filter (fun c => is_surrogate c = false) (spec_basis e) ->
  uid_for e' = uid_for e.
Proof.
  intros Heq. rewrite !uid_for_spec_basis.
  rewrite <- (encode_utf8_drops_surrogates (spec_basis e')).
  rewrite <- (encode_utf8_drops_surrogates (spec_basis e)).
  by rewrite Heq.
Qed.

(** ** What is sent *)

Lemma lstrip_suffix s : exists b, s = b ++ lstrip s.
Proof.
  induction s as [|c s [b Hb]]; simpl; [by exists []|].
  destruct (isspace c); [|by exists []].
  exists (c :: b). simpl. by rewrite <- Hb.
Qed.

Lemma lstrip_head s :
  match lstrip s with [] => True | c :: _ => isspace c = false end.
Proof.
  induction s as [|c s IH]; simpl; [done|].
  destruct (isspace c) eqn:Hc; [done|]. done.
Qed.

Lemma rstrip_prefix s : exists a, s = rstrip s ++ a.
Proof.
  destruct (lstrip_suffix (rev s)) as [b Hb].
  exists (rev b). unfold rstrip.
  rewrite <- rev_app_distr, <- Hb. by rewrite rev_involutive.
Qed.

Lemma strip_trimmed s : trimmed (strip s).
Proof.
  unfold trimmed, strip. split.
  - destruct (rstrip_prefix (lstrip s)) as [a Ha].
    pose proof (lstrip_head s) as Hh.
    destruct (rstrip (lstrip s)) as [|c r]; [done|].
    rewrite Ha in Hh. done.
  - unfold rstrip. rewrite rev_involutive. apply lstrip_head.
Qed.

Lemma message_render name e :
  message name e
  = render (strip (or_empty (entry_title e)))
           (strip (or_empty (entry_link e))) name.
Proof. done. Qed.

Lemma truthy_ne s : truthy s = true -> s <> [].
Proof. by destruct s. Qed.

(** X14.  Every message that a call of [process_feed] delivers is
    [**title**], the link and [_(via name)_] on three lines, where title
    and link are not empty and carry no white space at either end. *)
Theorem delivered_messages_are_trimmed name url m c :
  c ∈ deliveries (m_trace (process_feed name url m).2) ->
  c ∈ deliveries (m_trace m)
  \/ exists title link,
       c = render title link name
       /\ title <> [] /\ trimmed title
       /\ link <> [] /\ trimmed link.
Proof.
  destruct (process_feed_done name url m) as (k & failed & Htr & _ & _).
  cbn zeta in Htr. rewrite Htr, deliveries_app, deliveries_feed_events.
  pose proof (Forall_take _ k _
                (eligible_candidate (seen_of url (m_state m))
                   (rev (entries (feedparser_parse (m_trace m) url)))))
    as Hcand.
  revert Hcand. generalize (take k (eligible (seen_of url (m_state m))
                   (rev (entries (feedparser_parse (m_trace m) url))))).
  intros done Hcand.
  intros Hc. apply elem_of_app in Hc as [Hc | Hc]; [by left | right].
  apply list_elem_of_fmap in Hc as (e & -> & He).
  rewrite Forall_forall in Hcand. specialize (Hcand e He).
  unfold candidate in Hcand. rewrite !andb_true_iff in Hcand.
  destruct Hcand as [[Ht Hl] _].
  exists (strip (or_empty (entry_title e))),
         (strip (or_empty (entry_link e))).
  split; [apply message_render|].
  split; [by apply truthy_ne|]. split; [apply strip_trimmed|].
  split; [by apply truthy_ne | apply strip_trimmed].
Qed.

(** ** Starting a run *)

(** X4.  [main] stops before it does anything when the webhook is not
    configured (missing or empty) or when the state file does not load:
    nothing is fetched, sent or written.  A missing state file is no
    error: the state is then empty. *)
Theorem main_startup_failures m :
  (present DISCORD_WEBHOOK = false -> main m = (Raise AssertionError, m))
  /\ (present DISCORD_WEBHOOK = true ->
      forall text,
        m_file m = Some text -> json_load text = None ->
        main m = (Raise JSONDecodeError, m))
  /\ (m_file m = None -> load_state m = (Ok (mkState ∅), m)).
Proof.
  split; [|split].
  - intros Hweb. unfold main. by rewrite Hweb.
  - intros Hweb text Hfile Hload. unfold main. rewrite Hweb.
    unfold mbind, M_bind, load_state. by rewrite Hfile, Hload.
  - intros Hfile. unfold load_state. by rewrite Hfile.
Qed.

(** ** A source without entries *)

(** X5.  When the source returns no entry, [process_feed] returns 0 and
    sends nothing.  If the source is flagged as unreadable, a warning is
    printed and the state is left as it was; if not, the feed's URL is
    entered in the state with an empty seen list unless it is there
    already. *)
Theorem process_feed_empty_source name url m :
  entries (feedparser_parse (m_trace m) url) = [] ->
  process_feed name url m
  = if bozo (feedparser_parse (m_trace m) url) then
      (Ok 0%nat,
       mkMachine (m_state m)
         (m_trace m ++ [EvParse url; EvPrint (LogWarn name url)])
         (m_file m))
    else
      (Ok 0%nat,
       mkMachine (setdefault url (m_state m)) (m_trace m ++ [EvParse url])
                 (m_file m)).
Proof.
  intros He. unfold process_feed. rewrite He.
  destruct (bozo _); cbn [andb negb nonempty].
  - unfold mbind, M_bind, emit, mret, M_ret. cbn [m_state m_trace m_file].
    by rewrite <- app_assoc.
  - done.
Qed.

(** ** The feeds in the state *)

Lemma process_feed_skipped name url m :
  skipped (feedparser_parse (m_trace m) url) = true ->
  m_state (process_feed name url m).2 = m_state m.
Proof.
  intros Hskip. unfold process_feed. unfold skipped in Hskip.
  by rewrite Hskip.
Qed.

(** X6.  A call of [process_feed] removes no feed from the state and
    adds none but its own: unless the source was unreadable, the feed's
    URL is in the state afterwards, whatever was delivered and also when
    the call raises. *)
Theorem process_feed_keys name url m :
  dom (seen (m_state m)) ⊆ dom (seen (m_state (process_feed name url m).2))
  /\ dom (seen (m_state (process_feed name url m).2))
     ⊆ dom (seen (m_state m)) ∪ {[url]}
  /\ (skipped (feedparser_parse (m_trace m) url) = false ->
      url ∈ dom (seen (m_state (process_feed name url m).2))).
Proof.
  destruct (process_feed_run name url m)
    as (k & _ & _ & _ & Hfr & _ & _).
  pose proof (process_feed_sets_key name url m) as Hkey.
  pose proof (process_feed_skipped name url m) as Hskip.
  split; [|split].
  - intros u Hu. destruct (decide (u = url)) as [->|Hne].
    + destruct (skipped _); [by rewrite Hskip|].
      apply elem_of_dom. by apply Hkey.
    + apply elem_of_dom. rewrite Hfr by done. by apply elem_of_dom.
  - intros u Hu. apply elem_of_union.
    destruct (decide (u = url)) as [->|Hne].
    + right. by apply elem_of_singleton.
    + left. apply elem_of_dom. rewrite <- Hfr by done.
      by apply elem_of_dom.
  - intros Hs. apply elem_of_dom. by apply Hkey.
Qed.

(** ** The seen list after a call *)


Lemma kept_seen_append s u : NoDup s -> u ∉ s -> kept (seen_append s u).
Proof.
  intros Hnd Hu. split; [apply length_seen_append|].
  rewrite seen_append_lastn.
  eapply sublist_NoDup; [|apply sublist_drop].
  apply NoDup_app. split; [done|]. split; [|apply NoDup_singleton].
  intros x Hx Hxu. apply list_elem_of_singleton in Hxu. by subst x.
Qed.

Lemma seen_after_kept es : forall s k,
  kept s -> kept (seen_after s (take k (eligible s es))).
Proof.
  induction es as [|e es IH]; intros s k Hs.
  - by destruct k.
  - simpl eligible. destruct (candidate e); simpl; [|by apply IH].
    destruct (bool_decide_reflect (uid_for e ∈ s)) as [Hin|Hin]; simpl;
      [by apply IH|].
    destruct k as [|k]; [done|].
    simpl. unfold seen_after in IH. apply IH.
    apply kept_seen_append; [apply Hs | done].
Qed.

Lemma kept_nil : kept [].
Proof. split; [simpl; lia | constructor]. Qed.

Lemma seen_of_kept url st : state_kept st -> kept (seen_of url st).
Proof.
  intros Hst. unfold seen_of.
  destruct (seen st !! url) as [l|] eqn:Hl; [by eapply Hst | apply kept_nil].
Qed.

Lemma process_feed_state_kept name url m :
  state_kept (m_state m) -> state_kept (m_state (process_feed name url m).2).
Proof.
  intros Hst u l Hl.
  destruct (process_feed_run name url m)
    as (k & _ & _ & Hs & Hfr & _ & _).
  destruct (decide (u = url)) as [->|Hne].
  - assert (Hseen : seen_of url (m_state (process_feed name url m).2) = l)
      by (unfold seen_of; by rewrite Hl).
    rewrite <- Hseen, Hs. apply seen_after_kept. by apply seen_of_kept.
  - rewrite Hfr in Hl by done. by eapply Hst.
Qed.

(** X8.  A call of [process_feed] keeps every seen list of the state
    within 500 identifiers and free of repetitions if they were so
    before, whether it returns or raises. *)
Theorem process_feed_keeps_seen_lists name url m :
  state_kept (m_state m) ->
  state_kept (m_state (process_feed name url m).2)
  /\ kept (seen_of url (m_state (process_feed name url m).2)).
Proof.
  intros Hst. pose proof (process_feed_state_kept name url m Hst) as Hst'.
  split; [done | by apply seen_of_kept].
Qed.

Lemma main_loop_state_kept feeds : forall totals m,
  state_kept (m_state m) ->
  state_kept (m_state (main_loop feeds totals m).2).
Proof.
  induction feeds as [|[name url] feeds IH]; intros totals m Hst; [done|].
  simpl main_loop.
  pose proof (process_feed_state_kept name url m Hst) as Hst1.
  destruct (process_feed name url m) as [[n|e] m1]; cbn [snd] in Hst1.
  - by apply IH.
  - unfold mbind, M_bind, emit. by apply IH.
Qed.

(** X9.  A run of [main] that loads a state whose seen lists are within
    500 identifiers and free of repetitions (the empty state of a first
    run is one) saves a state whose seen lists are so. *)
Theorem main_saves_kept_state m st0 :
  present DISCORD_WEBHOOK = true ->
  (load_state m).1 = Ok st0 ->
  state_kept st0 ->
  exists m',
    main m = (Ok tt, m')
    /\ state_kept (m_state m')
    /\ m_file m' = Some (Json.dumps (m_state m')).
Proof.
  intros Hweb Hload Hst.
  destruct (main_run m st0 Hweb Hload)
    as (os & m' & _ & Hmain & _ & Hfile & Hloop).
  exists m'. split; [done|]. split; [|done].
  pose proof (main_loop_state_kept FEEDS 0%nat
                (mkMachine st0 (m_trace m) (m_file m)) Hst) as Hk.
  by rewrite Hloop in Hk.
Qed.

(** ** What a call does and does not do *)

Lemma feed_events_quiet_readings name url p done failed :
  errors_logged (feed_events name url p done failed) = []
  /\ totals_printed (feed_events name url p done failed) = [].
Proof.
  unfold feed_events, errors_logged, totals_printed.
  rewrite !omap_app.
  fold (errors_logged (delivered_events name done)).
  fold (totals_printed (delivered_events name done)).
  rewrite errors_delivered, totals_delivered.
  by destruct (skipped p), failed.
Qed.

(** X10.  A call of [process_feed] asks the source once, first of all;
    it never writes the state file, logs no error and prints no total.
    At most one delivery is rejected in a call: the call then raises, and
    the rejected delivery is the last thing it did.  With no rejected
    delivery the call returns. *)
Theorem process_feed_effects name url m :
  exists evs,
    m_trace (process_feed name url m).2 = m_trace m ++ EvParse url :: evs
    /\ m_file (process_feed name url m).2 = m_file m
    /\ parses evs = [] /\ saves evs = []
    /\ errors_logged evs = [] /\ totals_printed evs = []
    /\ match failures evs with
       | [] => exists n, (process_feed name url m).1 = Ok n
       | [c] => (process_feed name url m).1 = Raise RequestException
                /\ last evs = Some (EvPost c false)
       | _ => False
       end.
Proof.
  destruct (process_feed_done name url m) as (k & failed & Htr & _ & Hr).
  destruct (process_feed_run name url m) as (_ & _ & Hf & _).
  cbn zeta in *.
  set (p := feedparser_parse (m_trace m) url) in *.
  set (done := take k _) in *.
  destruct (feed_events_readings name url p done failed)
    as (_ & _ & Hp & Hs & Hfl).
  destruct (feed_events_quiet_readings name url p done failed)
    as (He & Ht).
  unfold feed_events in *.
  set (evs := (if skipped p then [EvPrint (LogWarn name url)] else [])
              ++ delivered_events name done
              ++ match failed with
                 | Some e => [EvPost (message name e) false]
                 | None => []
                 end) in *.
  exists evs. split; [exact Htr|]. split; [exact Hf|].
  cbn in Hp, Hs, He, Ht, Hfl.
  split; [by injection Hp|]. split; [exact Hs|].
  split; [exact He|]. split; [exact Ht|].
  fold (failures evs) in Hfl. rewrite Hfl.
  destruct failed as [e|]; [|by eexists].
  split; [exact Hr|]. subst evs.
  by rewrite !app_assoc, last_snoc.
Qed.

(** ** No entry twice *)

Lemma eligible_avoids U es : forall s x u,
  spared U s (length (candidates es)) ->
  u ∈ U -> u ∈ s -> x ∈ eligible s es -> uid_for x <> u.
Proof.
  induction es as [|e es IH]; intros s x u Hsp HuU Hus Hx.
  - by apply not_elem_of_nil in Hx.
  - simpl eligible in Hx. rewrite candidates_cons in Hsp.
    destruct (candidate e); simpl in *; [|by eapply IH].
    destruct (bool_decide_reflect (uid_for e ∈ s)) as [Hin|Hin];
      simpl in *.
    + eapply IH; [by apply spared_weaken | done..].
    + apply elem_of_cons in Hx as [->|Hx]; [congruence|].
      eapply (IH (seen_append s (uid_for e)));
        [by apply spared_append | done | by eapply spared_keeps | done].
Qed.

Lemma spared_last s u n :
  (S n <= 500)%nat -> u ∉ s -> spared [u] (seen_append s u) n.
Proof.
  intros Hn Hu. split; [lia|].
  apply Forall_forall. intros x Hx Hxu.
  apply list_elem_of_singleton in Hxu. subst x.
  apply elem_of_take in Hx as (i & Hi & Hlt).
  rewrite seen_append_lastn, length_lastn, length_app in Hlt.
  rewrite seen_append_lastn in Hi. unfold lastn in Hi.
  rewrite lookup_drop, length_app in Hi.
  change (length [u]) with 1%nat in Hi, Hlt.
  rewrite lookup_app_l in Hi by lia.
  apply Hu. by eapply list_elem_of_lookup_2.
Qed.

Lemma eligible_NoDup es : forall s,
  (length (candidates es) <= 500)%nat ->
  NoDup (map uid_for (eligible s es)).
Proof.
  induction es as [|e es IH]; intros s Hn; [constructor|].
  simpl eligible. rewrite candidates_cons in Hn.
  destruct (candidate e); simpl in *; [|by apply IH].
  destruct (bool_decide_reflect (uid_for e ∈ s)) as [Hin|Hin]; simpl.
  - apply IH. lia.
  - apply NoDup_cons. split; [|apply IH; lia].
    intros Hdup. apply list_elem_of_fmap in Hdup as (x & Hux & Hx).
    eapply (eligible_avoids [uid_for e] es
              (seen_append s (uid_for e)) x (uid_for e)).
    + by apply spared_last.
    + by apply list_elem_of_singleton.
    + apply seen_append_last.
    + done.
    + done.
Qed.


(** ** Nothing new *)

(** X12.  When the identifier of every entry that passes the title, link
    and keyword tests is in the feed's seen list already, a call of
    [process_feed] sends nothing, returns 0 and changes no seen list,
    whatever the webhook would have answered. *)
Theorem process_feed_nothing_new name url m :
  (forall e, e ∈ entries (feedparser_parse (m_trace m) url) ->
             candidate e = true ->
             uid_for e ∈ seen_of url (m_state m)) ->
  exists evs,
    (process_feed name url m).1 = Ok 0%nat
    /\ m_trace (process_feed name url m).2 = m_trace m ++ evs
    /\ deliveries evs = [] /\ failures evs = []
    /\ forall u, seen_of u (m_state (process_feed name url m).2)
                 = seen_of u (m_state m).
Proof.
  intros Hall.
  assert (HE : eligible (seen_of url (m_state m))
                 (rev (entries (feedparser_parse (m_trace m) url))) = []).
  { apply eligible_all_seen. intros e He. apply Hall.
    apply list_elem_of_In, in_rev. by apply list_elem_of_In. }
  destruct (process_feed_run name url m)
    as (k & Hk & _ & Hs & Hfr & _ & Hres).
  cbn zeta in *. rewrite HE in *.
  assert (k = 0%nat) as -> by (simpl in Hk; lia).
  destruct Hres as [(Hr & _ & Htr) | (e' & He' & _)]; [|done].
  destruct (feed_events_readings name url
              (feedparser_parse (m_trace m) url) [] None)
    as (Hd & _ & _ & _ & Hfl).
  eexists. split; [exact Hr|]. split; [exact Htr|].
  split; [exact Hd|]. split; [exact Hfl|].
  intros u. destruct (decide (u = url)) as [->|Hne]; [exact Hs|].
  unfold seen_of. by rewrite Hfr.
Qed.

(** ** The total of a run *)

Lemma failures_feed_block f o :
  failures (feed_block f o)
  = match o_failed o with
    | Some e => [message f.1 e]
    | None => []
    end.
Proof.
  unfold feed_block, failures. rewrite omap_app.
  fold (failures (feed_events f.1 f.2 (o_parsed o) (o_done o) (o_failed o))).
  destruct (feed_events_readings f.1 f.2 (o_parsed o) (o_done o)
              (o_failed o)) as (_ & _ & _ & _ & ->).
  destruct (o_failed o); by rewrite ?app_nil_r.
Qed.

Lemma no_failure_no_abort feeds : forall os,
  length os = length feeds ->
  failures (run_events feeds os) = [] ->
  sum_list (map aborted_count os) = 0%nat.
Proof.
  induction feeds as [|f feeds IH]; intros [|o os] Hlen Hf; try done.
  change (run_events (f :: feeds) (o :: os))
    with (feed_block f o ++ run_events feeds os) in Hf.
  unfold failures in Hf. rewrite omap_app in Hf.
  fold (failures (feed_block f o)) in Hf.
  fold (failures (run_events feeds os)) in Hf.
  apply app_eq_nil in Hf as [Hf1 Hf2].
  rewrite failures_feed_block in Hf1.
  cbn [map sum_list sum_list_with id].
  rewrite (IH os) by (by injection Hlen || done).
  unfold aborted_count. by destruct (o_failed o).
Qed.

(** X13.  The total that a run of [main] prints never exceeds the number
    of messages the run delivered, and equals it when no delivery of the
    run was rejected. *)
Theorem main_total_counts_deliveries m st0 :
  present DISCORD_WEBHOOK = true ->
  (load_state m).1 = Ok st0 ->
  exists m' evs total,
    main m = (Ok tt, m')
    /\ m_trace m' = m_trace m ++ evs
    /\ totals_printed evs = [total]
    /\ (total <= length (deliveries evs))%nat
    /\ (failures evs = [] -> total = length (deliveries evs)).
Proof.
  intros Hweb Hload.
  destruct (main_run m st0 Hweb Hload)
    as (os & m' & Hlen & Hmain & Htr & _ & _).
  destruct (run_events_readings FEEDS os Hlen) as (_ & _ & Ht & Hd & _).
  eexists m', _, _. split; [exact Hmain|]. split; [exact Htr|].
  unfold totals_printed, deliveries, failures. rewrite !omap_app.
  fold (totals_printed (run_events FEEDS os)).
  fold (deliveries (run_events FEEDS os)).
  fold (failures (run_events FEEDS os)).
  rewrite Ht. cbn [omap app]. rewrite !app_nil_r, Hd.
  split; [done|]. split; [lia|].
  intros Hf. rewrite (no_failure_no_abort FEEDS os Hlen Hf). lia.
Qed.

Lemma eligible_sublist_candidates es : forall s,
  sublist (eligible s es) (candidates es).
Proof.
  induction es as [|e es IH]; intros s; simpl; [constructor|].
  rewrite candidates_cons. destruct (candidate e); simpl; [|apply IH].
  destruct (bool_decide (uid_for e ∈ s)); simpl.
  - apply sublist_cons, IH.
  - apply sublist_skip, IH.
Qed.

(** X16.  Whatever its result, a call of [process_feed] delivers no more
    messages than its source lists entries that pass the title, link and
    keyword tests. *)
Theorem process_feed_delivers_at_most_candidates name url m :
  exists evs,
    m_trace (process_feed name url m).2 = m_trace m ++ evs
    /\ (length (deliveries evs)
        <= length (candidates
                     (rev (entries (feedparser_parse (m_trace m) url)))))%nat
    /\ (length (deliveries evs)
        <= length (entries (feedparser_parse (m_trace m) url)))%nat.
Proof.
  destruct (process_feed_done name url m) as (k & failed & Htr & _ & _).
  cbn zeta in *. eexists. split; [exact Htr|].
  rewrite deliveries_feed_events, length_map.
  set (es := rev (entries (feedparser_parse (m_trace m) url))).
  assert (Hsub : sublist (take k (eligible (seen_of url (m_state m)) es))
                   (candidates es)).
  { transitivity (eligible (seen_of url (m_state m)) es);
      [apply sublist_take | apply eligible_sublist_candidates]. }
  apply sublist_length in Hsub. split; [done|].
  etransitivity; [exact Hsub|].
  unfold candidates, es.
  etransitivity; [apply length_filter|]. by rewrite length_rev.
Qed.

(** ** The document in the state file *)

Lemma lower_hex_plain c : is_lower_hex c = true -> plain c = true.
Proof.
  unfold is_lower_hex, plain. rewrite !orb_true_iff, !andb_true_iff.
  rewrite !N.leb_le. intros [[? ?] | [? ?]]; right; lia.
Qed.

Lemma hex4_plain n : Forall (fun c => plain c = true) (Json.hex4 n).
Proof.
  unfold Json.hex4. apply Forall_fmap, Forall_forall. intros i _.
  apply lower_hex_plain, hexdigit_lower.
Qed.

Lemma escape_char_plain c :
  Forall (fun c => plain c = true) (Json.escape_char c).
Proof.
  unfold Json.escape_char.
  repeat match goal with
         | |- context [if ?b then _ else _] => destruct b eqn:?
         end;
    repeat (apply Forall_cons; split; [done|]);
    repeat (apply Forall_app; split);
    try apply hex4_plain; try apply Forall_nil_2;
    repeat (apply Forall_cons; split; [done|]);
    try apply Forall_nil_2.
  apply Forall_cons. split; [|apply Forall_nil_2].
  unfold plain. apply orb_true_iff. by right.
Qed.

Lemma encode_str_plain s :
  Forall (fun c => plain c = true) (Json.encode_str s).
Proof.
  unfold Json.encode_str.
  apply Forall_app. split; [by repeat constructor|].
  apply Forall_app. split; [|by repeat constructor].
  induction s as [|c s IH]; simpl; [constructor|].
  apply Forall_app. split; [apply escape_char_plain | done].
Qed.

Lemma newline_indent_plain level :
  Forall (fun c => plain c = true) (Json.newline_indent level).
Proof.
  unfold Json.newline_indent. apply Forall_cons. split; [done|].
  apply Forall_replicate. done.
Qed.

Ltac plain_chars :=
  repeat first
    [ apply newline_indent_plain
    | apply encode_str_plain
    | apply Forall_nil_2
    | apply Forall_app; split
    | apply Forall_cons; split; [reflexivity|] ].

Lemma iterencode_list_plain lst level :
  Forall (Forall (fun c => plain c = true)) (Json.iterencode_list lst level).
Proof.
  unfold Json.iterencode_list. destruct lst as [|v vs].
  - apply Forall_cons. split; [plain_chars | constructor].
  - apply Forall_cons. split; [plain_chars|].
    apply Forall_app. split.
    + apply Forall_fmap, Forall_forall. intros x _. plain_chars.
    + apply Forall_cons. split; [plain_chars|].
      apply Forall_cons. split; [plain_chars | constructor].
Qed.

Lemma dict_items_plain {V} (enc : V -> nat -> list str) items :
  (forall v level, Forall (Forall (fun c => plain c = true)) (enc v level)) ->
  forall level first,
    Forall (Forall (fun c => plain c = true))
           (Json.dict_items enc items level first).
Proof.
  intros Henc. induction items as [|[k v] items IH]; intros level first;
    cbn [Json.dict_items]; [constructor|].
  apply Forall_app. split.
  - destruct first; [constructor|].
    apply Forall_cons. split; [plain_chars | constructor].
  - apply Forall_cons. split; [plain_chars|].
    apply Forall_cons. split; [plain_chars|].
    apply Forall_app. split; [apply Henc | apply IH].
Qed.

Lemma iterencode_dict_plain {V} (enc : V -> nat -> list str) items level :
  (forall v level, Forall (Forall (fun c => plain c = true)) (enc v level)) ->
  Forall (Forall (fun c => plain c = true))
         (Json.iterencode_dict enc items level).
Proof.
  intros Henc. unfold Json.iterencode_dict.
  destruct items as [|it items].
  - apply Forall_cons. split; [plain_chars | constructor].
  - apply Forall_cons. split; [plain_chars|].
    apply Forall_cons. split; [plain_chars|].
    apply Forall_app. split; [by apply dict_items_plain|].
    apply Forall_cons. split; [plain_chars|].
    apply Forall_cons. split; [plain_chars | constructor].
Qed.

Lemma dumps_plain st : Forall (fun c => plain c = true) (Json.dumps st).
Proof.
  unfold Json.dumps, Json.chunks. apply Forall_concat.
  apply iterencode_dict_plain. intros m level.
  apply iterencode_dict_plain. intros l level'.
  apply iterencode_list_plain.
Qed.

Lemma encode_utf8_plain s :
  Forall (fun c => plain c = true) s -> encode_utf8 s = s.
Proof.
  induction 1 as [|c s Hc _ IH]; [done|].
  unfold encode_utf8 in *. simpl. rewrite IH.
  unfold plain in Hc. unfold utf8_char.
  destruct (N.ltb_spec c 128) as [|Hge]; [done|].
  apply orb_true_iff in Hc as [Hc | Hc].
  - apply N.eqb_eq in Hc. lia.
  - apply andb_true_iff in Hc as [_ Hc]. apply N.leb_le in Hc. lia.
Qed.

(** X15.  The document that [save_state] leaves in the state file holds
    line feeds and printable ASCII characters only, whatever the feed
    URLs and identifiers are, so that its UTF-8 bytes are its
    characters. *)
Theorem save_state_writes_plain_ascii (st : State) (m : Machine) :
  exists doc,
    m_file (save_state st m).2 = Some doc
    /\ Forall (fun c => plain c = true) doc
    /\ encode_utf8 doc = doc.
Proof.
  exists (Json.dumps st).
  split; [exact (save_state_ops_complete st (m_file m))|].
  split; [apply dumps_plain | apply encode_utf8_plain, dumps_plain].
Qed.

End More.

(** * The theorems at work on concrete runs *)

Import Demo.

(** Three entries returned newest first are delivered oldest first. *)
Lemma process_feed_delivers_eligible_witness :
  process_feed (env := env_ok) name_a url_a fresh = (Ok 3%nat, run_ok.2)
  /\ deliveries (m_trace run_ok.2) = map (message name_a) [new1; new2; new3].
Proof.
  assert (Hrun : process_feed (env := env_ok) name_a url_a fresh
                 = (Ok 3%nat, run_ok.2)) by (vm_compute; reflexivity).
  split; [exact Hrun|].
  destruct (process_feed_delivers_eligible (env := env_ok)
              name_a url_a fresh 3%nat run_ok.2 Hrun)
    as (Hd & _).
  rewrite Hd. vm_compute. reflexivity.
Defined.

(** [filler] gives every number an identifier of its own. *)
Lemma filler_inj (i j : nat) : filler i = filler j -> i = j.
Proof.
  unfold filler. intros H. apply app_inv_head in H.
  pose proof (Nat.div_mod_eq i 10) as Hi1.
  pose proof (Nat.div_mod_eq (i / 10) 10) as Hi2.
  pose proof (Nat.Div0.div_div i 10 10) as Hi3.
  pose proof (Nat.div_mod_eq j 10) as Hj1.
  pose proof (Nat.div_mod_eq (j / 10) 10) as Hj2.
  pose proof (Nat.Div0.div_div j 10 10) as Hj3.
  change (10 * 10)%nat with 100%nat in Hi3, Hj3.
  revert H Hi1 Hi2 Hi3 Hj1 Hj2 Hj3.
  generalize (i / 100)%nat (j / 100)%nat ((i / 10) mod 10)%nat
             ((j / 10) mod 10)%nat (i mod 10)%nat (j mod 10)%nat.
  intros a a' b b' c c'.
  generalize (i / 10 / 10)%nat (j / 10 / 10)%nat (i / 10)%nat (j / 10)%nat.
  intros d d' e e' H. injection H as H1 H2 H3. lia.
Qed.


(** Two entries with the same id and different links and titles. *)
Lemma uid_for_hashes_basis_witness :
  spec_basis twin2 = spec_basis twin1 /\ uid_for twin2 = uid_for twin1.
Proof.
  assert (Hb : spec_basis twin2 = spec_basis twin1) by reflexivity.
  split; [exact Hb|].
  exact (proj2 (proj2 (proj2 (uid_for_hashes_basis twin1))) twin2 Hb).
Defined.

(** The state holds a seen list for the second feed; the call for the
    first feed delivers one entry, records it and raises: the list of the
    second feed is the one it was. *)
Lemma process_feed_frame_witness :
  url_b ≠ url_a
  /\ (process_feed (env := env_reject) name_a url_a m_other).1
     = Raise RequestException
  /\ seen_of url_a (m_state (process_feed (env := env_reject) name_a url_a
                               m_other).2)
     = [uid_for new1]
  /\ seen (m_state m_other) !! url_b = Some [filler 1; filler 2]
  /\ seen (m_state (process_feed (env := env_reject) name_a url_a m_other).2)
       !! url_b
     = Some [filler 1; filler 2].
Proof.
  assert (Hne : url_b ≠ url_a) by discriminate.
  assert (Hb : seen (m_state m_other) !! url_b = Some [filler 1; filler 2])
    by (vm_compute; reflexivity).
  split; [exact Hne|].
  split; [vm_compute; reflexivity|].
  split; [vm_compute; reflexivity|].
  split; [exact Hb|].
  rewrite (proj1 (process_feed_frame (env := env_reject) name_a url_a m_other
                    url_b Hne)).
  exact Hb.
Defined.

(** A call that returns 3 has paused three times. *)
Lemma process_feed_pauses_witness :
  (process_feed (env := env_ok) name_a url_a fresh).1 = Ok 3%nat
  /\ exists evs,
       m_trace (process_feed (env := env_ok) name_a url_a fresh).2
       = m_trace fresh ++ evs
       /\ length (pauses evs) = 3%nat.
Proof.
  assert (Hrun : (process_feed (env := env_ok) name_a url_a fresh).1
                 = Ok 3%nat) by (vm_compute; reflexivity).
  split; [exact Hrun|].
  destruct (process_feed_pauses_after_every_delivery (env := env_ok)
              name_a url_a fresh) as (evs & Htr & _ & _ & Hn).
  exists evs. split; [exact Htr | exact (proj2 (Hn 3%nat Hrun))].
Defined.

(** One entry, one delivery, one pause: not none. *)
Lemma single_delivery_is_followed_by_a_pause :
  run_one.1 = Ok 1%nat
  /\ deliveries (m_trace run_one.2) = [message name_a new1]
  /\ pauses (m_trace run_one.2) = [POST_DELAY_SECONDS]
  /\ length (pauses (m_trace run_one.2))
     ≠ (length (deliveries (m_trace run_one.2)) - 1)%nat.
Proof.
  split; [vm_compute; reflexivity|].
  split; [vm_compute; reflexivity|].
  split; [vm_compute; reflexivity|].
  vm_compute. discriminate.
Defined.



(** A run whose first feed is cut short after one delivery: the error is
    logged, the second feed is processed and its two entries delivered,
    and the state is saved. *)
Lemma main_isolates_feed_failures_witness :
  present (DISCORD_WEBHOOK (Env := env_two_reject)) = true
  /\ (load_state (env := env_two_reject) fresh).1 = Ok (mkState ∅)
  /\ attempts (env := env_two_reject) (FEEDS (Env := env_two_reject)) fresh
     = [Raise RequestException; Ok 2%nat]
  /\ errors_logged
       (m_trace (machine_after (env := env_two_reject)
                   (FEEDS (Env := env_two_reject)) fresh))
     = [name_a]
  /\ deliveries
       (m_trace (machine_after (env := env_two_reject)
                   (FEEDS (Env := env_two_reject)) fresh))
     = message name_a new1 :: map (message name_b) (rev (entries feed_b))
  /\ exists os,
       length os = 2%nat
       /\ main (env := env_two_reject) fresh
          = (Ok tt,
             let mL := machine_after (env := env_two_reject)
                         (FEEDS (Env := env_two_reject)) fresh in
             mkMachine (m_state mL)
               (m_trace mL
                ++ [EvSave (Json.dumps (m_state mL));
                    EvPrint
                      (LogDone
                         (sum_list
                            (map returned
                               (attempts (env := env_two_reject)
                                  (FEEDS (Env := env_two_reject)) fresh))))])
               (Some (Json.dumps (m_state mL))))
       /\ saves (run_events (FEEDS (Env := env_two_reject)) os) = [].
Proof.
  assert (Hweb : present (DISCORD_WEBHOOK (Env := env_two_reject)) = true)
    by reflexivity.
  assert (Hload : (load_state (env := env_two_reject) fresh).1
                  = Ok (mkState ∅)) by reflexivity.
  split; [exact Hweb|]. split; [exact Hload|].
  split; [vm_compute; reflexivity|].
  split; [vm_compute; reflexivity|].
  split; [vm_compute; reflexivity|].
  destruct (main_isolates_feed_failures (env := env_two_reject) fresh
              (mkState ∅) Hweb Hload)
    as (os & Hlen & Hmain & _ & _ & _ & _ & _ & _ & Hs).
  exists os. split; [exact Hlen|]. split; [exact Hmain | exact Hs].
Defined.

(** C6.  One feed, three new entries, the delivery of the second one
    rejected.  The first entry is delivered, [process_feed] raises the
    error and its result holds no count; the run goes on, delivers nothing
    else and prints [Done. Posted 0 new items] after the one delivery.
    Where every delivery is accepted, the line prints the number of
    deliveries, 3. *)
Theorem rejected_feed_count_is_lost :
  run_reject.1 = Raise RequestException
  /\ deliveries (m_trace run_reject.2) = [message name_a new1]
  /\ main_reject.1 = Ok tt
  /\ deliveries (m_trace main_reject.2) = [message name_a new1]
  /\ totals_printed (m_trace main_reject.2) = [0%nat]
  /\ length (deliveries (m_trace main_ok.2)) = 3%nat
  /\ totals_printed (m_trace main_ok.2) = [3%nat].
Proof. repeat split; vm_compute; reflexivity. Qed.

(** A rejected delivery on an empty seen list, and the next call: it
    retries the rejected entry and the one after it. *)
Lemma rejected_delivery_stops_feed_and_is_retried_witness :
  process_feed (env := env_reject) name_a url_a fresh
  = (Raise RequestException, run_reject.2)
  /\ deliveries (m_trace run_reject.2) = [message name_a new1]
  /\ rerun_reject.1 = Ok 2%nat
  /\ deliveries (m_trace rerun_reject.2)
     = deliveries (m_trace run_reject.2)
       ++ [message name_a new2; message name_a new3]
  /\ exists k failing pre post,
       eligible (env := env_reject) (seen_of url_a (m_state fresh))
         (rev (entries (feedparser_parse (Env := env_reject)
                          (m_trace fresh) url_a))) !! k = Some failing
       /\ rev (entries (feedparser_parse (Env := env_reject)
                          (m_trace fresh) url_a))
          = pre ++ failing :: post
       /\ failures (m_trace run_reject.2)
          = failures (m_trace fresh) ++ [message name_a failing]
       /\ uid_for failing ∉ seen_of url_a (m_state run_reject.2)
       /\ forall m2 n2 m3,
            seen_of url_a (m_state m2) = seen_of url_a (m_state run_reject.2) ->
            feedparser_parse (Env := env_reject) (m_trace m2) url_a
            = feedparser_parse (Env := env_reject) (m_trace fresh) url_a ->
            process_feed (env := env_reject) name_a url_a m2 = (Ok n2, m3) ->
            exists E2,
              deliveries (m_trace m3)
              = deliveries (m_trace m2) ++ map (message name_a) E2
              /\ n2 = length E2
              /\ ((forall c, c ∈ pre -> candidate (env := env_reject) c = true ->
                             uid_for c ∈ seen_of url_a (m_state run_reject.2)) ->
                  E2 = drop k (eligible (env := env_reject)
                                 (seen_of url_a (m_state fresh))
                                 (rev (entries
                                         (feedparser_parse (Env := env_reject)
                                            (m_trace fresh) url_a))))).
Proof.
  assert (Hrun : process_feed (env := env_reject) name_a url_a fresh
                 = (Raise RequestException, run_reject.2))
    by (vm_compute; reflexivity).
  split; [exact Hrun|].
  split; [vm_compute; reflexivity|].
  split; [vm_compute; reflexivity|].
  split; [vm_compute; reflexivity|].
  destruct (rejected_delivery_stops_feed_and_is_retried (env := env_reject)
              name_a url_a fresh RequestException run_reject.2 Hrun)
    as (k & failing & pre & post & Hk & Hes & _ & _ & _ & Hf & _ & _ & Hnot
        & _ & Hretry).
  exists k, failing, pre, post.
  split; [exact Hk|]. split; [exact Hes|]. split; [exact Hf|].
  split; [exact Hnot|].
  intros m2 n2 m3 Hseen Hparse Hrun2.
  destruct (Hretry m2 n2 m3 Hseen Hparse Hrun2) as (E2 & Hd & Hn & Hall & _).
  exists E2. split; [exact Hd|]. split; [exact Hn | exact Hall].
Defined.

(** The seen list is at the cap and its oldest identifier is the one of an
    entry the source still lists.  The delivery of [new1] pushes that
    identifier out, the delivery of [new2] is rejected, and the next call
    delivers the pinned entry again before it retries [new2]. *)
Lemma pinned_entry_is_delivered_again :
  length full_seen = 500%nat
  /\ eligible (env := env_pinned) full_seen (rev (entries feed_pinned))
     = [new1; new2]
  /\ run_pinned.1 = Raise RequestException
  /\ deliveries (m_trace run_pinned.2) = [message name_a new1]
  /\ failures (m_trace run_pinned.2) = [message name_a new2]
  /\ rerun_pinned.1 = Ok 2%nat
  /\ deliveries (m_trace rerun_pinned.2)
     = deliveries (m_trace run_pinned.2)
       ++ [message name_a pinned; message name_a new2]
  /\ deliveries (m_trace rerun_pinned.2)
     ≠ deliveries (m_trace run_pinned.2) ++ [message name_a new2].
Proof.
  split; [vm_compute; reflexivity|].
  split; [vm_compute; reflexivity|].
  split; [vm_compute; reflexivity|].
  split; [vm_compute; reflexivity|].
  split; [vm_compute; reflexivity|].
  split; [vm_compute; reflexivity|].
  split; [vm_compute; reflexivity|].
  vm_compute. discriminate.
Defined.

(** The seen list is at the cap and its oldest identifier is the one of
    the newest entry of the source, listed behind a new entry.  Were the
    new entry delivered, the pinned one would lose its identifier and be
    eligible after it; the delivery is rejected, and the identifier of that
    later eligible entry is in the seen list the call leaves. *)
Example later_eligible_entry_is_recorded_at_the_cap :
  eligible (env := env_pinned_later) full_seen [new1; pinned] = [new1; pinned]
  /\ run_pinned_later.1 = Raise RequestException
  /\ deliveries (m_trace run_pinned_later.2) = []
  /\ head (seen_of url_a (m_state run_pinned_later.2)) = Some (uid_for pinned).
Proof.
  split; [vm_compute; reflexivity|].
  split; [vm_compute; reflexivity|].
  split; vm_compute; reflexivity.
Qed.

(** Two feeds, every delivery accepted: the second run finds nothing new
    and writes the file it found. *)
Lemma second_run_delivers_nothing_witness :
  (forall h u, feedparser_parse (Env := env_two) h u = source2 u)
  /\ (forall h c, requests_post (Env := env_two) h c = true)
  /\ present (DISCORD_WEBHOOK (Env := env_two)) = true
  /\ (load_state (env := env_two) fresh).1 = Ok (mkState ∅)
  /\ (forall f, f ∈ FEEDS (Env := env_two) ->
        roomy (env := env_two) (seen_of f.2 (mkState ∅))
              (rev (entries (source2 f.2))))
  /\ main (env := env_two) fresh = (Ok tt, main_two.2)
  /\ json_load (Env := env_two) (Json.dumps (m_state main_two.2))
     = Some (m_state main_two.2)
  /\ exists m2 evs,
       main (env := env_two) main_two.2 = (Ok tt, m2)
       /\ m_trace m2 = m_trace main_two.2 ++ evs
       /\ deliveries evs = []
       /\ totals_printed evs = [0%nat]
       /\ m_file m2 = m_file main_two.2
       /\ m_state m2 = m_state main_two.2.
Proof.
  assert (Hstable : forall h u,
             feedparser_parse (Env := env_two) h u = source2 u)
    by (intros h u; reflexivity).
  assert (Hok : forall h c, requests_post (Env := env_two) h c = true)
    by (intros h c; reflexivity).
  assert (Hweb : present (DISCORD_WEBHOOK (Env := env_two)) = true)
    by reflexivity.
  assert (Hload : (load_state (env := env_two) fresh).1 = Ok (mkState ∅))
    by reflexivity.
  assert (Hroomy : forall f, f ∈ FEEDS (Env := env_two) ->
             roomy (env := env_two) (seen_of f.2 (mkState ∅))
                   (rev (entries (source2 f.2)))).
  { intros f Hf.
    assert (seen_of f.2 (mkState ∅) = []) as ->
      by (unfold seen_of; cbn [seen]; by rewrite lookup_empty).
    split; [|rewrite take_nil; apply Forall_nil_2].
    apply elem_of_cons in Hf as [->|Hf]; [vm_compute; lia|].
    apply elem_of_cons in Hf as [->|Hf]; [vm_compute; lia|].
    by apply not_elem_of_nil in Hf. }
  assert (Hmain : main (env := env_two) fresh = (Ok tt, main_two.2))
    by (vm_compute; reflexivity).
  assert (Hjson : json_load (Env := env_two) (Json.dumps (m_state main_two.2))
                  = Some (m_state main_two.2))
    by (vm_compute; reflexivity).
  split; [exact Hstable|]. split; [exact Hok|]. split; [exact Hweb|].
  split; [exact Hload|]. split; [exact Hroomy|]. split; [exact Hmain|].
  split; [exact Hjson|].
  exact (second_run_delivers_nothing (env := env_two) source2 Hstable Hok
           fresh (mkState ∅) main_two.2 Hweb Hload Hroomy Hmain Hjson).
Defined.

(** The state file holds a seen list at the cap whose oldest identifier is
    the one of an entry the source still lists, next to a new entry.
    Every delivery is accepted.  The first run delivers the new entry,
    which pushes the pinned entry's identifier out; the second run finds
    the pinned entry unrecorded and delivers it: its total is 1, and the
    state it saves is another one. *)
Lemma pinned_entry_breaks_idempotence :
  main_pinned_again.1 = Ok tt
  /\ failures (m_trace main_pinned_again.2) = []
  /\ totals_printed (m_trace main_pinned_again.2) = [1%nat; 1%nat]
  /\ last (seen_of url_a (m_state main_pinned.2)) = Some (uid_for new1)
  /\ last (seen_of url_a (m_state main_pinned_again.2))
     = Some (uid_for pinned).
Proof.
  split; [vm_compute; reflexivity|].
  split; [vm_compute; reflexivity|].
  split; [vm_compute; reflexivity|].
  split; vm_compute; reflexivity.
Defined.

(** * The further properties on concrete inputs *)

Import DemoMore.

(** With the keywords ETF and SEC, a title that names an ETF passes. *)
Lemma matches_keywords_spec_witness :
  matches_keywords (env := env_keywords) (py "SEC approves spot ETF") = true
  /\ (KEYWORDS (Env := env_keywords) = []
      \/ exists k pre post,
           k ∈ KEYWORDS (Env := env_keywords)
           /\ str_lower (Env := env_keywords) (py "SEC approves spot ETF")
              = pre ++ str_lower (Env := env_keywords) k ++ post).
Proof.
  assert (Hm : matches_keywords (env := env_keywords)
                 (py "SEC approves spot ETF") = true) by reflexivity.
  split; [exact Hm|].
  exact (proj1 (matches_keywords_spec (env := env_keywords)
                  (py "SEC approves spot ETF")) Hm).
Defined.

(** An entry without id: its link identifies it, not its title and date. *)
Lemma candidate_identified_by_id_or_link_witness :
  candidate (env := env_padded) padded = true
  /\ exists l,
       entry_link padded = Some l /\ l <> []
       /\ spec_basis padded <> []
       /\ uid_for padded
          = SHA1.hexdigest
              (encode_utf8 (if present (entry_id padded)
                            then or_empty (entry_id padded) else l)).
Proof.
  assert (Hc : candidate (env := env_padded) padded = true) by reflexivity.
  split; [exact Hc|].
  exact (candidate_identified_by_id_or_link (env := env_padded) padded Hc).
Defined.

(** The ids [ab] and [a], a lone surrogate, [b]. *)
Lemma uid_for_ignores_surrogates_witness :
  filter (fun c => is_surrogate c = false) (spec_basis surrogate_id)
  = filter (fun c => is_surrogate c = false) (spec_basis plain_id)
  /\ spec_basis surrogate_id <> spec_basis plain_id
  /\ uid_for surrogate_id = uid_for plain_id.
Proof.
  assert (Hf : filter (fun c => is_surrogate c = false)
                 (spec_basis surrogate_id)
               = filter (fun c => is_surrogate c = false)
                   (spec_basis plain_id)) by reflexivity.
  split; [exact Hf|]. split; [discriminate|].
  exact (uid_for_ignores_surrogates plain_id surrogate_id Hf).
Defined.

(** An empty webhook address, and a state file that was cut short. *)
Lemma main_startup_failures_witness :
  present (DISCORD_WEBHOOK (Env := env_empty_webhook)) = false
  /\ main (env := env_empty_webhook) Demo.fresh
     = (Raise AssertionError, Demo.fresh)
  /\ present (DISCORD_WEBHOOK (Env := Demo.env_ok)) = true
  /\ m_file m_corrupt = Some (take 13 (Json.dumps Demo.st_new))
  /\ json_load (Env := Demo.env_ok) (take 13 (Json.dumps Demo.st_new)) = None
  /\ main (env := Demo.env_ok) m_corrupt = (Raise JSONDecodeError, m_corrupt).
Proof.
  assert (H1 : present (DISCORD_WEBHOOK (Env := env_empty_webhook)) = false)
    by reflexivity.
  assert (H2 : present (DISCORD_WEBHOOK (Env := Demo.env_ok)) = true)
    by reflexivity.
  assert (H3 : m_file m_corrupt = Some (take 13 (Json.dumps Demo.st_new)))
    by reflexivity.
  assert (H4 : json_load (Env := Demo.env_ok)
                 (take 13 (Json.dumps Demo.st_new)) = None)
    by (vm_compute; reflexivity).
  split; [exact H1|].
  split; [exact (proj1 (main_startup_failures (env := env_empty_webhook)
                          Demo.fresh) H1)|].
  split; [exact H2|]. split; [exact H3|]. split; [exact H4|].
  exact (proj1 (proj2 (main_startup_failures (env := Demo.env_ok) m_corrupt))
           H2 _ H3 H4).
Defined.

(** A source that could not be read. *)
Lemma process_feed_empty_source_witness :
  entries (feedparser_parse (Env := env_unreadable) (m_trace Demo.fresh)
             Demo.url_a) = []
  /\ process_feed (env := env_unreadable) Demo.name_a Demo.url_a Demo.fresh
     = (Ok 0%nat,
        mkMachine (m_state Demo.fresh)
          (m_trace Demo.fresh
           ++ [EvParse Demo.url_a;
               EvPrint (LogWarn Demo.name_a Demo.url_a)])
          (m_file Demo.fresh)).
Proof.
  assert (He : entries (feedparser_parse (Env := env_unreadable)
                          (m_trace Demo.fresh) Demo.url_a) = [])
    by reflexivity.
  split; [exact He|].
  exact (process_feed_empty_source (env := env_unreadable)
           Demo.name_a Demo.url_a Demo.fresh He).
Defined.

(** A source that is read and empty: the feed enters the state. *)
Lemma process_feed_keys_witness :
  skipped (feedparser_parse (Env := env_empty) (m_trace Demo.fresh)
             Demo.url_a) = false
  /\ Demo.url_a
     ∈ dom (seen (m_state (process_feed (env := env_empty) Demo.name_a
                             Demo.url_a Demo.fresh).2)).
Proof.
  assert (Hs : skipped (feedparser_parse (Env := env_empty)
                          (m_trace Demo.fresh) Demo.url_a) = false)
    by reflexivity.
  split; [exact Hs|].
  exact (proj2 (proj2 (process_feed_keys (env := env_empty) Demo.name_a
                         Demo.url_a Demo.fresh)) Hs).
Defined.


(** From the empty state. *)
Lemma process_feed_keeps_seen_lists_witness :
  state_kept (m_state Demo.fresh)
  /\ state_kept (m_state (process_feed (env := Demo.env_reject) Demo.name_a
                            Demo.url_a Demo.fresh).2).
Proof.
  assert (Hst : state_kept (m_state Demo.fresh)).
  { intros url l Hl. simpl in Hl. rewrite lookup_empty in Hl. discriminate. }
  split; [exact Hst|].
  exact (proj1 (process_feed_keeps_seen_lists (env := Demo.env_reject)
                  Demo.name_a Demo.url_a Demo.fresh Hst)).
Defined.

(** A first run, without state file. *)
Lemma main_saves_kept_state_witness :
  present (DISCORD_WEBHOOK (Env := Demo.env_two)) = true
  /\ (load_state (env := Demo.env_two) Demo.fresh).1 = Ok (mkState ∅)
  /\ state_kept (mkState ∅)
  /\ exists m',
       main (env := Demo.env_two) Demo.fresh = (Ok tt, m')
       /\ state_kept (m_state m')
       /\ m_file m' = Some (Json.dumps (m_state m')).
Proof.
  assert (Hweb : present (DISCORD_WEBHOOK (Env := Demo.env_two)) = true)
    by reflexivity.
  assert (Hload : (load_state (env := Demo.env_two) Demo.fresh).1
                  = Ok (mkState ∅)) by reflexivity.
  assert (Hst : state_kept (mkState ∅)).
  { intros url l Hl. simpl in Hl. rewrite lookup_empty in Hl. discriminate. }
  split; [exact Hweb|]. split; [exact Hload|]. split; [exact Hst|].
  exact (main_saves_kept_state (env := Demo.env_two) Demo.fresh (mkState ∅)
           Hweb Hload Hst).
Defined.


(** The same call once more, on the state the first call left. *)
Lemma process_feed_nothing_new_witness :
  (forall e,
      e ∈ entries (feedparser_parse (Env := Demo.env_ok)
                     (m_trace Demo.run_ok.2) Demo.url_a) ->
      candidate (env := Demo.env_ok) e = true ->
      uid_for e ∈ seen_of Demo.url_a (m_state Demo.run_ok.2))
  /\ exists evs,
       (process_feed (env := Demo.env_ok) Demo.name_a Demo.url_a
          Demo.run_ok.2).1 = Ok 0%nat
       /\ m_trace (process_feed (env := Demo.env_ok) Demo.name_a Demo.url_a
                     Demo.run_ok.2).2
          = m_trace Demo.run_ok.2 ++ evs
       /\ deliveries evs = [] /\ failures evs = []
       /\ forall u,
            seen_of u (m_state (process_feed (env := Demo.env_ok) Demo.name_a
                                  Demo.url_a Demo.run_ok.2).2)
            = seen_of u (m_state Demo.run_ok.2).
Proof.
  assert (Hseen : seen_of Demo.url_a (m_state Demo.run_ok.2)
                  = map uid_for [Demo.new1; Demo.new2; Demo.new3])
    by (vm_compute; reflexivity).
  assert (Hall : forall e,
             e ∈ entries (feedparser_parse (Env := Demo.env_ok)
                            (m_trace Demo.run_ok.2) Demo.url_a) ->
             candidate (env := Demo.env_ok) e = true ->
             uid_for e ∈ seen_of Demo.url_a (m_state Demo.run_ok.2)).
  { intros e He _. rewrite Hseen. apply list_elem_of_fmap_2.
    apply list_elem_of_In. apply list_elem_of_In in He.
    simpl in He. simpl. tauto. }
  split; [exact Hall|].
  exact (process_feed_nothing_new (env := Demo.env_ok) Demo.name_a Demo.url_a
           Demo.run_ok.2 Hall).
Defined.

(** A run in which one delivery is rejected. *)
Lemma main_total_counts_deliveries_witness :
  present (DISCORD_WEBHOOK (Env := Demo.env_two_reject)) = true
  /\ (load_state (env := Demo.env_two_reject) Demo.fresh).1 = Ok (mkState ∅)
  /\ exists m' evs total,
       main (env := Demo.env_two_reject) Demo.fresh = (Ok tt, m')
       /\ m_trace m' = m_trace Demo.fresh ++ evs
       /\ totals_printed evs = [total]
       /\ (total <= length (deliveries evs))%nat
       /\ (failures evs = [] -> total = length (deliveries evs)).
Proof.
  assert (Hweb : present (DISCORD_WEBHOOK (Env := Demo.env_two_reject)) = true)
    by reflexivity.
  assert (Hload : (load_state (env := Demo.env_two_reject) Demo.fresh).1
                  = Ok (mkState ∅)) by reflexivity.
  split; [exact Hweb|]. split; [exact Hload|].
  exact (main_total_counts_deliveries (env := Demo.env_two_reject) Demo.fresh
           (mkState ∅) Hweb Hload).
Defined.

(** A title and a link wrapped in white space are sent without it. *)
Lemma delivered_messages_are_trimmed_witness :
  render (py "Nine") (py "http://e/9") Demo.name_a
  ∈ deliveries (m_trace (process_feed (env := env_padded) Demo.name_a
                           Demo.url_a Demo.fresh).2)
  /\ (render (py "Nine") (py "http://e/9") Demo.name_a
      ∈ deliveries (m_trace Demo.fresh)
      \/ exists title link,
           render (py "Nine") (py "http://e/9") Demo.name_a
           = render title link Demo.name_a
           /\ title <> [] /\ trimmed title
           /\ link <> [] /\ trimmed link).
Proof.
  assert (Hd : deliveries (m_trace (process_feed (env := env_padded)
                                      Demo.name_a Demo.url_a Demo.fresh).2)
               = [render (py "Nine") (py "http://e/9") Demo.name_a])
    by (vm_compute; reflexivity).
  assert (Hc : render (py "Nine") (py "http://e/9") Demo.name_a
               ∈ deliveries (m_trace (process_feed (env := env_padded)
                                        Demo.name_a Demo.url_a Demo.fresh).2)).
  { rewrite Hd. apply list_elem_of_singleton. reflexivity. }
  split; [exact Hc|].
  exact (delivered_messages_are_trimmed (env := env_padded) Demo.name_a
           Demo.url_a Demo.fresh _ Hc).
Defined.
